(** * celery-exporter-ng: the task-state tracker of [main.py]

    A shallow embedding of the three event handlers of [my_monitor]
    ([get_sent_time], [get_started_time], [get_task_done]), of the
    module-level state they mutate under [mutex] (the size-limited
    dictionary [queued_tasks] and the four Prometheus instruments), and of
    the receiver set-up that dispatches on the event type.

    Conventions.
    - Timestamps are Python floats: primitive binary64 floats, subtraction
      is [PrimFloat.sub].
    - A [Gauge] child holds a count moved by [inc()]/[dec()] in steps of
      one: an integer ([Z]).  A [Summary] child is kept as the list of the
      values passed to [observe], newest first.  [labels(...)] creates the
      child at zero / empty on first use, hence the defaults below.
    - [queued_tasks] is an ordered dictionary: an association list, oldest
      insertion first.
    - Everything runs under [with mutex], so the handlers are sequential
      state transformers; a Python exception is the [Raise] result. *)

From Stdlib Require Import PrimFloat ZArith Lia.
From stdpp Require Import base option list strings gmap.

(* ================================================================== *)
(** ** Python results *)

Module Py.

Inductive exn : Type :=
| KeyError (key : string).

Inductive result (A : Type) : Type :=
| Ok (a : A)
| Raise (e : exn).
Arguments Ok {A} a.
Arguments Raise {A} e.

End Py.
Import Py.

(* ================================================================== *)
(** ** Events *)

(** The keys of a Celery event dictionary that the handlers read.  A
    handler reads only some of them; the others are payload it ignores. *)
Record Event : Type := mkEvent {
  type : string;
  uuid : string;
  timestamp : float;
  routing_key : string;
  name : string;
  hostname : string
}.

(** The value stored per task: [{"ts": .., "queue": .., "taskname": ..}]. *)
Record task_info : Type := mkInfo {
  ts : float;
  queue : string;
  taskname : string
}.

(* ================================================================== *)
(** ** The size-limited dictionary *)

Module LimitedSizeDict.

Section Dict.
Context {V : Type}.

Record t : Type := mk {
  size_limit : Z;
  items : list (string * V)
}.

(** First binding of a key, in insertion order. *)
Fixpoint assoc (k : string) (l : list (string * V)) : option V :=
  match l with
  | [] => None
  | (k', v) :: l' => if String.eqb k k' then Some v else assoc k l'
  end.

(** Replace the value of every binding of [k], keeping positions. *)
Fixpoint overwrite (k : string) (v : V) (l : list (string * V))
  : list (string * V) :=
  match l with
  | [] => []
  | (k', v') :: l' =>
      (if String.eqb k k' then (k', v) else (k', v')) :: overwrite k v l'
  end.

(** Remove the bindings of [k]. *)
Fixpoint remove (k : string) (l : list (string * V)) : list (string * V) :=
  match l with
  | [] => []
  | (k', v') :: l' =>
      if String.eqb k k' then remove k l' else (k', v') :: remove k l'
  end.

(** Drop the oldest-inserted binding. *)
Definition evict_oldest (l : list (string * V)) : list (string * V) :=
  match l with
  | [] => []
  | _ :: l' => l'
  end.

Definition empty (limit : Z) : t := mk limit [].

(** [len(d)], the [Size()] of the contract. *)
Definition len (d : t) : nat := length (items d).

(** [k in d] *)
Definition contains (k : string) (d : t) : bool :=
  match assoc k (items d) with Some _ => true | None => false end.

(** [d[k]], raising [KeyError] when the key is absent; the [Get] of the
    contract. *)
Definition getitem (k : string) (d : t) : result V :=
  match assoc k (items d) with
  | Some v => Ok v
  | None => Raise (KeyError k)
  end.

Definition at_capacity (d : t) : bool :=
  (size_limit d <=? Z.of_nat (len d))%Z.

(** Modelled from the spec: the class [LimitedSizeDict] of the module
    [utils], which is not among the sources.  [d[k] = v] is the
    contract's [Put]: it inserts or overwrites; when the key is present
    the record is updated in place and nothing is evicted; when the
    cache is at capacity and the key is new, the oldest-inserted entry
    is evicted and then the new one is inserted (as the newest). *)
Definition setitem (k : string) (v : V) (d : t) : t :=
  if contains k d then mk (size_limit d) (overwrite k v (items d))
  else if at_capacity d
       then mk (size_limit d) (evict_oldest (items d) ++ [(k, v)])
       else mk (size_limit d) (items d ++ [(k, v)]).

(** [d.pop(k, None)]: the contract's [Delete], a no-op on an absent
    key. *)
Definition pop (k : string) (d : t) : t :=
  mk (size_limit d) (remove k (items d)).

(** Keys are unique. *)
Definition wf (d : t) : Prop := NoDup (map fst (items d)).

End Dict.
Arguments t V : clear implicits.

End LimitedSizeDict.

(* ================================================================== *)
(** ** Instruments *)

Module Metrics.

(** Value of a gauge child; a child never touched reads zero. *)
Definition value {K} `{Countable K} (g : gmap K Z) (k : K) : Z :=
  default 0%Z (g !! k).

Definition inc {K} `{Countable K} (k : K) (g : gmap K Z) : gmap K Z :=
  <[k := (value g k + 1)%Z]> g.

Definition dec {K} `{Countable K} (k : K) (g : gmap K Z) : gmap K Z :=
  <[k := (value g k - 1)%Z]> g.

(** Samples of a summary child, newest first. *)
Definition samples {K} `{Countable K} (s : gmap K (list float)) (k : K)
  : list float :=
  default [] (s !! k).

Definition observe {K} `{Countable K} (k : K) (x : float)
    (s : gmap K (list float)) : gmap K (list float) :=
  <[k := x :: samples s k]> s.

End Metrics.

#[global] Arguments Metrics.value : simpl never.
#[global] Arguments Metrics.inc : simpl never.
#[global] Arguments Metrics.dec : simpl never.
#[global] Arguments Metrics.samples : simpl never.
#[global] Arguments Metrics.observe : simpl never.

(* ================================================================== *)
(** ** Module-level state of [main.py] *)

Record state : Type := mkState {
  queued_tasks : LimitedSizeDict.t task_info;
  waiting_time : gmap (string * string) (list float);
  queue_length : gmap (string * string) Z;
  tasks_running : gmap (string * string * string) Z;
  execution_stats : gmap (string * string * string * string) (list float)
}.

(** [int(os.environ.get("MAX_TASKS_CAPTURED", 100000))] when the variable
    is not set. *)
Definition MAX_TASKS_CAPTURED_default : Z := 100000.

(** The state right after the module is loaded with
    [MAX_TASKS_CAPTURED = limit]. *)
Definition initial (limit : Z) : state :=
  mkState (LimitedSizeDict.empty limit) ∅ ∅ ∅ ∅.

(** [tasks_captured.set_function(lambda: len(queued_tasks))]: the gauge is
    computed from the dictionary each time it is read. *)
Definition tasks_captured (st : state) : Z :=
  Z.of_nat (LimitedSizeDict.len (queued_tasks st)).

(** *** Statements over the state: a state and exception monad *)

Definition M (A : Type) : Type := state -> result (A * state).

#[export] Instance M_ret : MRet M := fun A a st => Ok (a, st).
#[export] Instance M_bind : MBind M := fun A B f m st =>
  match m st with
  | Ok (a, st') => f a st'
  | Raise e => Raise e
  end.

Definition modify (f : state -> state) : M unit := fun st => Ok (tt, f st).

(** State reached by a statement, when it does not raise. *)
Definition exec {A} (m : M A) (st : state) : result state :=
  match m st with
  | Ok (_, st') => Ok st'
  | Raise e => Raise e
  end.

Definition with_queued_tasks
    (f : LimitedSizeDict.t task_info -> LimitedSizeDict.t task_info)
    (st : state) : state :=
  mkState (f (queued_tasks st)) (waiting_time st) (queue_length st)
          (tasks_running st) (execution_stats st).

Definition with_waiting_time (f : _ -> _) (st : state) : state :=
  mkState (queued_tasks st) (f (waiting_time st)) (queue_length st)
          (tasks_running st) (execution_stats st).

Definition with_queue_length (f : _ -> _) (st : state) : state :=
  mkState (queued_tasks st) (waiting_time st) (f (queue_length st))
          (tasks_running st) (execution_stats st).

Definition with_tasks_running (f : _ -> _) (st : state) : state :=
  mkState (queued_tasks st) (waiting_time st) (queue_length st)
          (f (tasks_running st)) (execution_stats st).

Definition with_execution_stats (f : _ -> _) (st : state) : state :=
  mkState (queued_tasks st) (waiting_time st) (queue_length st)
          (tasks_running st) (f (execution_stats st)).

(** [task_id in queued_tasks] *)
Definition queued_tasks_contains (task_id : string) : M bool :=
  fun st => Ok (LimitedSizeDict.contains task_id (queued_tasks st), st).

(** [queued_tasks[task_id]] *)
Definition queued_tasks_getitem (task_id : string) : M task_info :=
  fun st =>
    match LimitedSizeDict.getitem task_id (queued_tasks st) with
    | Ok info => Ok (info, st)
    | Raise e => Raise e
    end.

(** [queued_tasks[task_id] = info] *)
Definition queued_tasks_setitem (task_id : string) (info : task_info)
  : M unit :=
  modify (with_queued_tasks (LimitedSizeDict.setitem task_id info)).

(** [queued_tasks[task_id]['ts'] = x]: the stored dictionary is fetched
    and mutated in place; [LimitedSizeDict.__setitem__] is not involved,
    so the entry keeps its position and nothing is evicted. *)
Definition queued_tasks_set_ts (task_id : string) (x : float) : M unit :=
  info ← queued_tasks_getitem task_id;
  modify (with_queued_tasks (fun d =>
    LimitedSizeDict.mk (LimitedSizeDict.size_limit d)
      (LimitedSizeDict.overwrite task_id
         (mkInfo x (queue info) (taskname info))
         (LimitedSizeDict.items d)))).

(** [queued_tasks.pop(task_id, None)] *)
Definition queued_tasks_pop (task_id : string) : M unit :=
  modify (with_queued_tasks (LimitedSizeDict.pop task_id)).

(** [instrument.labels(...).observe(x)], [.inc()], [.dec()] *)
Definition waiting_time_observe (labels : string * string) (x : float)
  : M unit :=
  modify (with_waiting_time (Metrics.observe labels x)).

Definition queue_length_inc (labels : string * string) : M unit :=
  modify (with_queue_length (Metrics.inc labels)).

Definition queue_length_dec (labels : string * string) : M unit :=
  modify (with_queue_length (Metrics.dec labels)).

Definition tasks_running_inc (labels : string * string * string) : M unit :=
  modify (with_tasks_running (Metrics.inc labels)).

Definition tasks_running_dec (labels : string * string * string) : M unit :=
  modify (with_tasks_running (Metrics.dec labels)).

Definition execution_stats_observe
    (labels : string * string * string * string) (x : float) : M unit :=
  modify (with_execution_stats (Metrics.observe labels x)).

(* ================================================================== *)
(** ** The handlers of [my_monitor] *)

Section Monitor.

(** [utils.strip_prefix_from_event] is not among the sources; the
    handlers only pass its result on as the [state] label. *)
Variable strip_prefix_from_event : string -> string.

(** event: task entered the queue *)
Definition get_sent_time (event : Event) : M unit :=
  let task_id := uuid event in
  queued_tasks_setitem task_id
    (mkInfo (timestamp event) (routing_key event) (name event));;
  stored ← queued_tasks_contains task_id;
  if stored : bool
  then queue_length_inc (routing_key event, name event)
  else mret tt.

Definition get_started_time (event : Event) : M unit :=
  let task_id := uuid event in
  captured ← queued_tasks_contains task_id;
  if captured : bool then
    i0 ← queued_tasks_getitem task_id;
    let lag := PrimFloat.sub (timestamp event) (ts i0) in
    i1 ← queued_tasks_getitem task_id;
    i2 ← queued_tasks_getitem task_id;
    waiting_time_observe (queue i1, taskname i2) lag;;
    i3 ← queued_tasks_getitem task_id;
    i4 ← queued_tasks_getitem task_id;
    queue_length_dec (queue i3, taskname i4);;
    i5 ← queued_tasks_getitem task_id;
    i6 ← queued_tasks_getitem task_id;
    tasks_running_inc (queue i5, taskname i6, hostname event);;
    queued_tasks_set_ts task_id (timestamp event)
  else mret tt.

Definition get_task_done (event : Event) : M unit :=
  let task_id := uuid event in
  captured ← queued_tasks_contains task_id;
  if captured : bool then
    i0 ← queued_tasks_getitem task_id;
    i1 ← queued_tasks_getitem task_id;
    tasks_running_dec (queue i0, taskname i1, hostname event);;
    i2 ← queued_tasks_getitem task_id;
    let runtime := PrimFloat.sub (timestamp event) (ts i2) in
    i3 ← queued_tasks_getitem task_id;
    i4 ← queued_tasks_getitem task_id;
    execution_stats_observe
      (queue i3, taskname i4, hostname event,
       strip_prefix_from_event (type event)) runtime;;
    queued_tasks_pop task_id
  else mret tt.

(** The [handlers] table given to [app.events.Receiver]; an event of a
    type without a handler is passed over. *)
Definition handlers (event : Event) : M unit :=
  if String.eqb (type event) "task-sent" then get_sent_time event
  else if String.eqb (type event) "task-started" then get_started_time event
  else if String.eqb (type event) "task-succeeded" then get_task_done event
  else if String.eqb (type event) "task-failed" then get_task_done event
  else if String.eqb (type event) "task-revoked" then get_task_done event
  else mret tt.

(** The receiver hands the delivered events to the handlers one at a
    time, in delivery order; an exception in a handler ends the loop. *)
Fixpoint deliver (events : list Event) : M unit :=
  match events with
  | [] => mret tt
  | event :: events' => handlers event;; deliver events'
  end.

(** [recv.capture(limit=..)]: the event source's subscription call with
    its maximum-events parameter.  With a positive [limit] the call
    returns once that many events have been delivered; without one it goes
    on for as long as events are delivered. *)
Definition capture (limit : Z) (events : list Event) : M unit :=
  if (0 <? limit)%Z then deliver (take (Z.to_nat limit) events)
  else deliver events.

(** [my_monitor(app)], run on the stream of events the broker delivers,
    in the module state created with [MAX_TASKS_CAPTURED]. *)
Definition my_monitor (MAX_TASKS_CAPTURED : Z) (events : list Event)
  : result state :=
  exec (capture MAX_TASKS_CAPTURED events) (initial MAX_TASKS_CAPTURED).

End Monitor.

(** The event's type is a key of the [handlers] table. *)
Definition has_handler (event : Event) : bool :=
  String.eqb (type event) "task-sent"
  || String.eqb (type event) "task-started"
  || String.eqb (type event) "task-succeeded"
  || String.eqb (type event) "task-failed"
  || String.eqb (type event) "task-revoked".

(** [n] deliveries of the same statement, one after the other. *)
Fixpoint repeated (n : nat) (m : M unit) : M unit :=
  match n with
  | O => mret tt
  | S n' => m;; repeated n' m
  end.

(* ================================================================== *)
(** ** Post-states of the handlers *)

(** The record [get_sent_time] stores for an event. *)
Definition sent_info (event : Event) : task_info :=
  mkInfo (timestamp event) (routing_key event) (name event).

(** The cache after [get_started_time] found [info]: the entry keeps its
    place and its labels, its timestamp is the start time. *)
Definition restamp (k : string) (x : float) (info : task_info)
    (d : LimitedSizeDict.t task_info) : LimitedSizeDict.t task_info :=
  LimitedSizeDict.mk (LimitedSizeDict.size_limit d)
    (LimitedSizeDict.overwrite k (mkInfo x (queue info) (taskname info))
       (LimitedSizeDict.items d)).

(** The cache was created with capacity [limit] and holds no more. *)
Definition within_capacity (limit : Z) (st : state) : Prop :=
  LimitedSizeDict.size_limit (queued_tasks st) = limit /\
  (Z.of_nat (LimitedSizeDict.len (queued_tasks st)) <= limit)%Z.

(* ================================================================== *)
(** ** Bookkeeping for the backlog gauge *)

(** The code keeps no per-task phase.  To speak about it, the tasks whose
    resident record has been through [get_started_time] since
    [get_sent_time] last wrote it are tracked beside the run. *)
Module Backlog.

Definition is_sent (event : Event) : bool :=
  String.eqb (type event) "task-sent".

Definition is_started (event : Event) : bool :=
  negb (is_sent event) && String.eqb (type event) "task-started".

(** The tracked set after [event] is handled in [st]. *)
Definition track (event : Event) (st : state) (started : gset string)
  : gset string :=
  if is_sent event then started ∖ {[uuid event]}
  else if is_started event
       then if LimitedSizeDict.contains (uuid event) (queued_tasks st)
            then started ∪ {[uuid event]}
            else started
       else started.

(** [event] is a second start: a started event for a task that is
    resident and already tracked as started. *)
Definition restart (event : Event) (st : state) (started : gset string)
  : bool :=
  is_started event
  && LimitedSizeDict.contains (uuid event) (queued_tasks st)
  && bool_decide (uuid event ∈ started).

Section Run.
Variable strip_prefix_from_event : string -> string.

(** No event of the sequence is a second start. *)
Fixpoint starts_once (events : list Event) (st : state)
    (started : gset string) : bool :=
  match events with
  | [] => true
  | event :: events' =>
      negb (restart event st started)
      && match exec (handlers strip_prefix_from_event event) st with
         | Ok st' => starts_once events' st' (track event st started)
         | Raise _ => true
         end
  end.
End Run.

(** What a record with labels [mine] adds to the series [labels]. *)
Definition share (mine labels : string * string) : Z :=
  if bool_decide (mine = labels) then 1%Z else 0%Z.

(** Resident records with the given labels that are waiting to start. *)
Fixpoint waiting (labels : string * string) (started : gset string)
    (l : list (string * task_info)) : nat :=
  match l with
  | [] => O
  | (k, info) :: l' =>
      (if bool_decide (k ∉ started)
          && bool_decide ((queue info, taskname info) = labels)
       then 1 else 0)%nat + waiting labels started l'
  end.

Definition invariant (st : state) (started : gset string) : Prop :=
  LimitedSizeDict.wf (queued_tasks st) /\
  forall labels,
    (Z.of_nat (waiting labels started
                 (LimitedSizeDict.items (queued_tasks st)))
     <= Metrics.value (queue_length st) labels)%Z.

End Backlog.

(* ================================================================== *)
(** ** Scenarios *)

Module Scenario.

(** Modelled from the spec: [utils.strip_prefix_from_event], which is not
    among the sources: the event's own kind, stripped of the transport
    prefix [task-]. *)
Definition strip_prefix_from_event (kind : string) : string :=
  if String.prefix "task-" kind
  then String.substring 5 (String.length kind - 5) kind
  else kind.

Definition sent (id : string) (t : float) (q n : string) : Event :=
  mkEvent "task-sent" id t q n "".

Definition started (id : string) (t : float) (w : string) : Event :=
  mkEvent "task-started" id t "" "" w.

Definition succeeded (id : string) (t : float) (w : string) : Event :=
  mkEvent "task-succeeded" id t "" "" w.

(** The state reached from the initial one, with the default capacity
    unless said otherwise. *)
Definition after_with (limit : Z) (events : list Event) : state :=
  match exec (deliver strip_prefix_from_event events) (initial limit) with
  | Ok st => st
  | Raise _ => initial limit
  end.

Definition after (events : list Event) : state :=
  after_with MAX_TASKS_CAPTURED_default events.

Definition sentA : Event := sent "A" 100 "q1" "foo".
Definition sentB : Event := sent "B" 101 "q1" "foo".
Definition startedA : Event := started "A" 105 "w1".
Definition startedA' : Event := started "A" 112 "w2".
Definition succeededA : Event := succeeded "A" 130 "w1".
Definition startedZ : Event := started "Z" 50 "w1".
Definition succeededA_on_w2 : Event := succeeded "A" 130 "w2".
Definition revokedA : Event := mkEvent "task-revoked" "A" 104 "" "" "w1".

End Scenario.

(* ================================================================== *)
(** ** Facts about the dictionary *)

Module LimitedSizeDictFacts.
Import LimitedSizeDict.

Section Facts.
Context {V : Type}.
Implicit Types (k : string) (v : V) (l : list (string * V)) (d : t V).

Lemma eqb_same k : String.eqb k k = true.
Proof. apply String.eqb_refl. Qed.

Lemma eqb_diff k k' : k <> k' -> String.eqb k k' = false.
Proof. intros Hne. now apply String.eqb_neq. Qed.

Lemma assoc_None_keys k l : assoc k l = None <-> k ∉ map fst l.
Proof.
  induction l as [|[k' v'] l IH]; cbn.
  - split; [intros _; apply not_elem_of_nil | reflexivity].
  - destruct (String.eqb_spec k k') as [->|Hne].
    + split; [discriminate | intros Hn; destruct Hn; left].
    + rewrite IH, not_elem_of_cons. tauto.
Qed.

Lemma overwrite_keys k v l : map fst (overwrite k v l) = map fst l.
Proof.
  induction l as [|[k' v'] l IH]; cbn; [reflexivity|].
  rewrite IH. now destruct (String.eqb k k').
Qed.

Lemma overwrite_length k v l : length (overwrite k v l) = length l.
Proof.
  rewrite <- (length_map fst (overwrite k v l)), overwrite_keys.
  apply length_map.
Qed.

Lemma assoc_overwrite_same k v l :
  assoc k (overwrite k v l) = match assoc k l with
                              | Some _ => Some v
                              | None => None
                              end.
Proof.
  induction l as [|[k' v'] l IH]; cbn; [reflexivity|].
  destruct (String.eqb k k') eqn:E; cbn; rewrite E; [reflexivity | exact IH].
Qed.

Lemma assoc_overwrite_other k k' v l :
  k <> k' -> assoc k' (overwrite k v l) = assoc k' l.
Proof.
  intros Hne.
  induction l as [|[k'' v''] l IH]; cbn; [reflexivity|].
  destruct (String.eqb_spec k k'') as [<-|Hne']; cbn.
  - rewrite (eqb_diff k' k) by congruence. exact IH.
  - now rewrite IH.
Qed.

Lemma overwrite_absent k v l : assoc k l = None -> overwrite k v l = l.
Proof.
  induction l as [|[k' v'] l IH]; cbn; [reflexivity|].
  destruct (String.eqb k k'); [discriminate|].
  intros H. now rewrite IH.
Qed.

Lemma assoc_remove_same k l : assoc k (remove k l) = None.
Proof.
  induction l as [|[k' v'] l IH]; cbn; [reflexivity|].
  destruct (String.eqb k k') eqn:E; cbn; [exact IH | now rewrite E].
Qed.

Lemma assoc_remove_other k k' l :
  k <> k' -> assoc k' (remove k l) = assoc k' l.
Proof.
  intros Hne.
  induction l as [|[k'' v''] l IH]; cbn; [reflexivity|].
  destruct (String.eqb_spec k k'') as [<-|Hne']; cbn.
  - rewrite (eqb_diff k' k) by congruence. exact IH.
  - now rewrite IH.
Qed.

Lemma remove_length k l : (length (remove k l) <= length l)%nat.
Proof.
  induction l as [|[k' v'] l IH]; cbn; [lia|].
  destruct (String.eqb k k'); cbn; lia.
Qed.

Lemma remove_absent k l : assoc k l = None -> remove k l = l.
Proof.
  induction l as [|[k' v'] l IH]; cbn; [reflexivity|].
  destruct (String.eqb k k'); [discriminate|].
  intros H. now rewrite IH.
Qed.

Lemma assoc_app k l l' :
  assoc k (l ++ l') = match assoc k l with
                      | Some v => Some v
                      | None => assoc k l'
                      end.
Proof.
  induction l as [|[k' v'] l IH]; cbn; [reflexivity|].
  now destruct (String.eqb k k').
Qed.

Lemma assoc_evict_oldest_None k l :
  assoc k l = None -> assoc k (evict_oldest l) = None.
Proof.
  destruct l as [|[k' v'] l]; cbn; [reflexivity|].
  now destruct (String.eqb k k').
Qed.

Lemma contains_true k d :
  contains k d = true <-> exists v, assoc k (items d) = Some v.
Proof.
  unfold contains. destruct (assoc k (items d)) as [v|].
  - split; eauto.
  - split; [discriminate | intros [v Hv]; discriminate].
Qed.

Lemma contains_false k d :
  contains k d = false <-> assoc k (items d) = None.
Proof.
  unfold contains. destruct (assoc k (items d)); split; congruence.
Qed.

(** After [d[k] = v] the key reads back [v]. *)
Lemma assoc_setitem_same k v d :
  assoc k (items (setitem k v d)) = Some v.
Proof.
  unfold setitem, contains.
  destruct (assoc k (items d)) as [v0|] eqn:E; cbn.
  - now rewrite assoc_overwrite_same, E.
  - destruct (at_capacity d); cbn; rewrite assoc_app.
    + rewrite (assoc_evict_oldest_None _ _ E). cbn. now rewrite eqb_same.
    + rewrite E. cbn. now rewrite eqb_same.
Qed.

Lemma contains_setitem k v d : contains k (setitem k v d) = true.
Proof. apply contains_true. eexists. apply assoc_setitem_same. Qed.

Lemma size_limit_setitem k v d :
  size_limit (setitem k v d) = size_limit d.
Proof.
  unfold setitem. destruct (contains k d); [reflexivity|].
  now destruct (at_capacity d).
Qed.

(** [Put] keeps the resident count within a capacity of at least one. *)
Lemma len_setitem_bound k v d :
  (1 <= size_limit d)%Z ->
  (Z.of_nat (len d) <= size_limit d)%Z ->
  (Z.of_nat (len (setitem k v d)) <= size_limit d)%Z.
Proof.
  intros Hcap Hlen. unfold setitem, at_capacity, len in *.
  destruct (contains k d); cbn.
  - now rewrite overwrite_length.
  - destruct (Z.leb_spec (size_limit d) (Z.of_nat (length (items d))));
      cbn; rewrite length_app; cbn.
    + destruct (items d) as [|p l]; cbn in *; lia.
    + lia.
Qed.

Lemma len_pop_bound k d : (len (pop k d) <= len d)%nat.
Proof. apply remove_length. Qed.

End Facts.

End LimitedSizeDictFacts.

(* ================================================================== *)
(** ** What each handler does to the state *)

Section HandlerFacts.
Import LimitedSizeDict LimitedSizeDictFacts.

Variable strip_prefix_from_event : string -> string.
Implicit Types (event : Event) (st : state) (info : task_info).

Ltac run_handler :=
  unfold mbind, M_bind, mret, M_ret, modify,
    queued_tasks_contains, queued_tasks_getitem, queued_tasks_setitem,
    queued_tasks_set_ts, queued_tasks_pop, waiting_time_observe,
    queue_length_inc, queue_length_dec, tasks_running_inc,
    tasks_running_dec, execution_stats_observe, contains, getitem;
  cbn.

Lemma get_sent_time_run event st :
  get_sent_time event st
  = Ok (tt, mkState (setitem (uuid event) (sent_info event) (queued_tasks st))
                    (waiting_time st)
                    (Metrics.inc (routing_key event, name event)
                                 (queue_length st))
                    (tasks_running st) (execution_stats st)).
Proof.
  unfold get_sent_time. run_handler.
  now rewrite assoc_setitem_same.
Qed.

Lemma get_started_time_absent event st :
  assoc (uuid event) (items (queued_tasks st)) = None ->
  get_started_time event st = Ok (tt, st).
Proof.
  intros Habs. unfold get_started_time. run_handler. now rewrite Habs.
Qed.

Lemma get_started_time_found event st info :
  assoc (uuid event) (items (queued_tasks st)) = Some info ->
  get_started_time event st
  = Ok (tt, mkState (restamp (uuid event) (timestamp event) info
                             (queued_tasks st))
                    (Metrics.observe (queue info, taskname info)
                       (PrimFloat.sub (timestamp event) (ts info))
                       (waiting_time st))
                    (Metrics.dec (queue info, taskname info)
                                 (queue_length st))
                    (Metrics.inc (queue info, taskname info, hostname event)
                                 (tasks_running st))
                    (execution_stats st)).
Proof.
  intros Hres. unfold get_started_time. run_handler.
  repeat (progress (run_handler; rewrite ?Hres)). reflexivity.
Qed.

Lemma get_task_done_absent event st :
  assoc (uuid event) (items (queued_tasks st)) = None ->
  get_task_done strip_prefix_from_event event st = Ok (tt, st).
Proof.
  intros Habs. unfold get_task_done. run_handler. now rewrite Habs.
Qed.

Lemma get_task_done_found event st info :
  assoc (uuid event) (items (queued_tasks st)) = Some info ->
  get_task_done strip_prefix_from_event event st
  = Ok (tt, mkState (pop (uuid event) (queued_tasks st))
                    (waiting_time st) (queue_length st)
                    (Metrics.dec (queue info, taskname info, hostname event)
                                 (tasks_running st))
                    (Metrics.observe
                       (queue info, taskname info, hostname event,
                        strip_prefix_from_event (type event))
                       (PrimFloat.sub (timestamp event) (ts info))
                       (execution_stats st))).
Proof.
  intros Hres. unfold get_task_done. run_handler.
  repeat (progress (run_handler; rewrite ?Hres)). reflexivity.
Qed.

(** No handler raises: every lookup is guarded by the membership test. *)
Lemma handlers_total event st :
  exists st', handlers strip_prefix_from_event event st = Ok (tt, st').
Proof.
  unfold handlers.
  assert (Hs : exists st', get_started_time event st = Ok (tt, st')).
  { destruct (assoc (uuid event) (items (queued_tasks st))) as [info|] eqn:E.
    - eexists. apply (get_started_time_found _ _ _ E).
    - eexists. apply (get_started_time_absent _ _ E). }
  assert (Hd : exists st',
             get_task_done strip_prefix_from_event event st = Ok (tt, st')).
  { destruct (assoc (uuid event) (items (queued_tasks st))) as [info|] eqn:E.
    - eexists. apply (get_task_done_found _ _ _ E).
    - eexists. apply (get_task_done_absent _ _ E). }
  repeat match goal with
         | |- context [if ?b then _ else _] => destruct b
         end; try assumption.
  - eexists. apply get_sent_time_run.
  - now exists st.
Qed.

Lemma deliver_cons event events st st' :
  handlers strip_prefix_from_event event st = Ok (tt, st') ->
  deliver strip_prefix_from_event (event :: events) st
  = deliver strip_prefix_from_event events st'.
Proof.
  intros H. cbn. unfold mbind, M_bind. now rewrite H.
Qed.

Lemma deliver_total events :
  forall st, exists st',
    deliver strip_prefix_from_event events st = Ok (tt, st').
Proof.
  induction events as [|event events IH]; intros st.
  - now exists st.
  - destruct (handlers_total event st) as [st1 H1].
    rewrite (deliver_cons _ _ _ _ H1). apply IH.
Qed.

Lemma deliver_app events1 events2 st st1 :
  deliver strip_prefix_from_event events1 st = Ok (tt, st1) ->
  deliver strip_prefix_from_event (events1 ++ events2) st
  = deliver strip_prefix_from_event events2 st1.
Proof.
  revert st. induction events1 as [|event events1 IH]; intros st H.
  - cbn in H. injection H as <-. reflexivity.
  - destruct (handlers_total event st) as [st' H'].
    rewrite (deliver_cons _ _ _ _ H') in H.
    change ((event :: events1) ++ events2)
      with (event :: (events1 ++ events2)).
    rewrite (deliver_cons _ _ _ _ H'). apply IH, H.
Qed.

End HandlerFacts.

(* ================================================================== *)
(** ** Facts about the instruments *)

Module MetricsFacts.
Import Metrics.

Section Facts.
Context {K : Type} `{Countable K}.
Implicit Types (k : K) (g : gmap K Z) (s : gmap K (list float)).

Lemma value_inc_same k g : value (inc k g) k = (value g k + 1)%Z.
Proof. unfold inc, value at 1. now rewrite lookup_insert_eq. Qed.

Lemma value_inc_other k k' g : k <> k' -> value (inc k g) k' = value g k'.
Proof. intros Hne. unfold inc, value at 1. now rewrite lookup_insert_ne. Qed.

Lemma value_dec_same k g : value (dec k g) k = (value g k - 1)%Z.
Proof. unfold dec, value at 1. now rewrite lookup_insert_eq. Qed.

Lemma value_dec_other k k' g : k <> k' -> value (dec k g) k' = value g k'.
Proof. intros Hne. unfold dec, value at 1. now rewrite lookup_insert_ne. Qed.

Lemma samples_observe_same k x s :
  samples (observe k x s) k = x :: samples s k.
Proof. unfold observe, samples at 1. now rewrite lookup_insert_eq. Qed.

Lemma samples_observe_other k k' x s :
  k <> k' -> samples (observe k x s) k' = samples s k'.
Proof.
  intros Hne. unfold observe, samples at 1. now rewrite lookup_insert_ne.
Qed.

End Facts.

End MetricsFacts.

(* ================================================================== *)
(** ** Latency and duration *)

Section Lifecycle.
Import LimitedSizeDict LimitedSizeDictFacts Metrics MetricsFacts.

Variable strip_prefix_from_event : string -> string.

Lemma getitem_Ok (k : string) (d : t task_info) (info : task_info) :
  getitem k d = Ok info <-> assoc k (items d) = Some info.
Proof.
  unfold getitem. destruct (assoc k (items d)); split; congruence.
Qed.

Lemma exec_run {A} (m : M A) (st st' : state) (a : A) :
  m st = Ok (a, st') -> exec m st = Ok st'.
Proof. intros Hm. unfold exec. now rewrite Hm. Qed.

(** After [get_sent_time] the event's record is the resident one. *)
Lemma get_sent_time_stores (event : Event) (st : state) :
  exists st',
    exec (get_sent_time event) st = Ok st' /\
    getitem (uuid event) (queued_tasks st') = Ok (sent_info event).
Proof.
  eexists. split; [apply (exec_run _ _ _ _ (get_sent_time_run event st))|].
  cbn. apply getitem_Ok, assoc_setitem_same.
Qed.

(** C1. When the started event of a task finds the record that the
    task's enqueued (task-sent) event stored, [get_started_time] does not
    raise and observes exactly started.timestamp - enqueued.timestamp on
    the waiting-time series labelled with the stored queue and task name;
    no other waiting-time series is touched. *)
Theorem waiting_time_is_started_minus_enqueued
    (sent started : Event) (st : state) :
  uuid started = uuid sent ->
  getitem (uuid sent) (queued_tasks st) = Ok (sent_info sent) ->
  exists st',
    exec (get_started_time started) st = Ok st' /\
    samples (waiting_time st') (routing_key sent, name sent)
    = PrimFloat.sub (timestamp started) (timestamp sent)
        :: samples (waiting_time st) (routing_key sent, name sent) /\
    forall labels,
      labels <> (routing_key sent, name sent) ->
      samples (waiting_time st') labels = samples (waiting_time st) labels.
Proof.
  intros Hid Hres. apply getitem_Ok in Hres. rewrite <- Hid in Hres.
  eexists. split; [apply (exec_run _ _ _ _
                            (get_started_time_found _ _ _ Hres))|].
  cbn. split.
  - apply samples_observe_same.
  - intros labels Hne. apply samples_observe_other. congruence.
Qed.

(** C2. When a task is resident and its started event is processed, the
    record's reference timestamp becomes the start time; if the record is
    still resident as the started handler left it when the terminal event
    is processed, [get_task_done] does not raise, observes exactly
    terminal.timestamp - started.timestamp on the execution-duration
    series, and the task is no longer in the cache afterwards. *)
Theorem execution_duration_is_terminal_minus_started
    (started done : Event) (st : state) (info : task_info) :
  getitem (uuid started) (queued_tasks st) = Ok info ->
  uuid done = uuid started ->
  exists st1,
    exec (get_started_time started) st = Ok st1 /\
    forall st2,
      getitem (uuid started) (queued_tasks st2)
      = getitem (uuid started) (queued_tasks st1) ->
      exists st3,
        exec (get_task_done strip_prefix_from_event done) st2 = Ok st3 /\
        samples (execution_stats st3)
          (queue info, taskname info, hostname done,
           strip_prefix_from_event (type done))
        = PrimFloat.sub (timestamp done) (timestamp started)
            :: samples (execution_stats st2)
                 (queue info, taskname info, hostname done,
                  strip_prefix_from_event (type done)) /\
        contains (uuid done) (queued_tasks st3) = false.
Proof.
  intros Hres Hid. apply getitem_Ok in Hres.
  eexists. split; [apply (exec_run _ _ _ _
                            (get_started_time_found _ _ _ Hres))|].
  intros st2 Hst2. cbn in Hst2.
  assert (Hres2 : assoc (uuid done) (items (queued_tasks st2))
                  = Some (mkInfo (timestamp started)
                                 (queue info) (taskname info))).
  { rewrite Hid. apply getitem_Ok. rewrite Hst2. apply getitem_Ok.
    unfold restamp. cbn. now rewrite assoc_overwrite_same, Hres. }
  eexists. split; [apply (exec_run _ _ _ _
                            (get_task_done_found _ _ _ _ Hres2))|].
  cbn. split.
  - apply samples_observe_same.
  - apply contains_false, assoc_remove_same.
Qed.

(** C6. A started or terminal event whose task id is absent from the
    cache leaves the whole state (cache and every instrument) as it was,
    and the handler returns normally. *)
Theorem orphan_event_is_ignored (event : Event) (st : state) :
  contains (uuid event) (queued_tasks st) = false ->
  exec (get_started_time event) st = Ok st /\
  exec (get_task_done strip_prefix_from_event event) st = Ok st.
Proof.
  intros Habs. apply contains_false in Habs. split.
  - apply (exec_run _ _ _ _ (get_started_time_absent _ _ Habs)).
  - apply (exec_run _ _ _ _ (get_task_done_absent _ _ _ Habs)).
Qed.

End Lifecycle.

(* ================================================================== *)
(** ** Where the labels come from *)

Section Labels.
Import LimitedSizeDict LimitedSizeDictFacts Metrics MetricsFacts.

Variable strip_prefix_from_event : string -> string.

(** C8 (as amended). For a started or terminal event that finds a
    resident record, the queue and task_name label values of every series
    touched are the stored record's; the worker label is the event's own
    hostname and the state label is derived from the event's own type.
    The event's routing_key and name play no part, and no other
    instrument changes. *)
Theorem queue_and_task_labels_come_from_record
    (event : Event) (st : state) (info : task_info) :
  getitem (uuid event) (queued_tasks st) = Ok info ->
  (exists st',
     exec (get_started_time event) st = Ok st' /\
     waiting_time st'
     = observe (queue info, taskname info)
         (PrimFloat.sub (timestamp event) (ts info)) (waiting_time st) /\
     queue_length st' = dec (queue info, taskname info) (queue_length st) /\
     tasks_running st'
     = inc (queue info, taskname info, hostname event) (tasks_running st) /\
     execution_stats st' = execution_stats st) /\
  (exists st',
     exec (get_task_done strip_prefix_from_event event) st = Ok st' /\
     waiting_time st' = waiting_time st /\
     queue_length st' = queue_length st /\
     tasks_running st'
     = dec (queue info, taskname info, hostname event) (tasks_running st) /\
     execution_stats st'
     = observe (queue info, taskname info, hostname event,
                strip_prefix_from_event (type event))
         (PrimFloat.sub (timestamp event) (ts info)) (execution_stats st)).
Proof.
  intros Hres. apply getitem_Ok in Hres. split.
  - eexists. split; [apply (exec_run _ _ _ _
                              (get_started_time_found _ _ _ Hres))|].
    cbn. repeat split.
  - eexists. split; [apply (exec_run _ _ _ _
                              (get_task_done_found _ _ _ _ Hres))|].
    cbn. repeat split.
Qed.

End Labels.

(** C8 (as stated) fails: with the same resident record for task A, two
    started events that differ only in their hostname put different worker
    label values on tasks_running, so that label value is taken from the
    event's payload, not from the record. *)
Lemma worker_label_comes_from_event :
  let st := Scenario.after [Scenario.sentA] in
  LimitedSizeDict.getitem "A" (queued_tasks st) = Ok (mkInfo 100 "q1" "foo") /\
  (exists st1,
     exec (get_started_time (Scenario.started "A" 105 "w1")) st = Ok st1 /\
     tasks_running st1 !! ("q1", "foo", "w1") = Some 1%Z /\
     tasks_running st1 !! ("q1", "foo", "w2") = None) /\
  (exists st2,
     exec (get_started_time (Scenario.started "A" 105 "w2")) st = Ok st2 /\
     tasks_running st2 !! ("q1", "foo", "w1") = None /\
     tasks_running st2 !! ("q1", "foo", "w2") = Some 1%Z).
Proof.
  cbv zeta. split; [vm_compute; reflexivity|].
  split; eexists; (split; [vm_compute; reflexivity|]);
    split; vm_compute; reflexivity.
Qed.

(* ================================================================== *)
(** ** Duplicate deliveries *)

Section Duplicates.
Import LimitedSizeDict LimitedSizeDictFacts Metrics MetricsFacts.

Lemma repeated_get_sent_time (event : Event) (n : nat) :
  forall st old,
    assoc (uuid event) (items (queued_tasks st)) = Some old ->
    exists stn,
      repeated n (get_sent_time event) st = Ok (tt, stn) /\
      value (queue_length stn) (routing_key event, name event)
      = (value (queue_length st) (routing_key event, name event)
         + Z.of_nat n)%Z /\
      map fst (items (queued_tasks stn)) = map fst (items (queued_tasks st)).
Proof.
  induction n as [|n IH]; intros st old Hres.
  - exists st. cbn. repeat split. lia.
  - cbn [repeated]. unfold mbind, M_bind. rewrite get_sent_time_run.
    set (st1 := mkState _ _ _ _ _).
    destruct (IH st1 (sent_info event)) as (stn & Hrun & Hval & Hkeys).
    { apply assoc_setitem_same. }
    exists stn. split; [exact Hrun|]. split.
    + rewrite Hval. subst st1. cbn. rewrite value_inc_same. lia.
    + rewrite Hkeys. subst st1. cbn. unfold setitem, contains.
      rewrite Hres. cbn. apply overwrite_keys.
Qed.

(** C9. An enqueued (task-sent) event whose task id is already resident
    overwrites the stored record with the new event's timestamp, queue
    and task name, keeps the cache's keys (so it is still one entry), and
    increments queueLength for the event's labels; delivered n times, it
    adds n to that gauge while the keys of the cache stay as they were. *)
Theorem resident_enqueue_overwrites_and_counts
    (event : Event) (st : state) (old : task_info) (n : nat) :
  getitem (uuid event) (queued_tasks st) = Ok old ->
  (exists st',
     exec (get_sent_time event) st = Ok st' /\
     getitem (uuid event) (queued_tasks st') = Ok (sent_info event) /\
     map fst (items (queued_tasks st')) = map fst (items (queued_tasks st)) /\
     value (queue_length st') (routing_key event, name event)
     = (value (queue_length st) (routing_key event, name event) + 1)%Z) /\
  (exists stn,
     exec (repeated n (get_sent_time event)) st = Ok stn /\
     map fst (items (queued_tasks stn)) = map fst (items (queued_tasks st)) /\
     value (queue_length stn) (routing_key event, name event)
     = (value (queue_length st) (routing_key event, name event)
        + Z.of_nat n)%Z).
Proof.
  intros Hres. apply getitem_Ok in Hres. split.
  - eexists. split; [apply (exec_run _ _ _ _ (get_sent_time_run event st))|].
    cbn. split; [apply getitem_Ok, assoc_setitem_same|]. split.
    + unfold setitem, contains. rewrite Hres. cbn. apply overwrite_keys.
    + apply value_inc_same.
  - destruct (repeated_get_sent_time event n st old Hres)
      as (stn & Hrun & Hval & Hkeys).
    exists stn. split; [apply (exec_run _ _ _ _ Hrun)|]. now split.
Qed.

(** C10. [get_started_time] leaves the task's record in the cache, with
    the start time as its timestamp.  A second started event for the same
    task id therefore runs the whole transition again: it observes
    second.timestamp - first.timestamp as a waiting time, takes queueLength
    down a second time and tasksRunning up a second time. *)
Theorem second_started_repeats_transition
    (first second : Event) (st : state) (info : task_info) :
  getitem (uuid first) (queued_tasks st) = Ok info ->
  uuid second = uuid first ->
  exists st1 st2,
    exec (get_started_time first) st = Ok st1 /\
    getitem (uuid first) (queued_tasks st1)
    = Ok (mkInfo (timestamp first) (queue info) (taskname info)) /\
    len (queued_tasks st1) = len (queued_tasks st) /\
    exec (get_started_time second) st1 = Ok st2 /\
    samples (waiting_time st2) (queue info, taskname info)
    = PrimFloat.sub (timestamp second) (timestamp first)
        :: PrimFloat.sub (timestamp first) (ts info)
        :: samples (waiting_time st) (queue info, taskname info) /\
    value (queue_length st2) (queue info, taskname info)
    = (value (queue_length st) (queue info, taskname info) - 2)%Z /\
    value (tasks_running st1) (queue info, taskname info, hostname first)
    = (value (tasks_running st)
         (queue info, taskname info, hostname first) + 1)%Z /\
    value (tasks_running st2) (queue info, taskname info, hostname second)
    = (value (tasks_running st1)
         (queue info, taskname info, hostname second) + 1)%Z.
Proof.
  intros Hres Hid. apply getitem_Ok in Hres.
  pose proof (get_started_time_found _ _ _ Hres) as Hrun1.
  set (st1 := mkState _ _ _ _ _) in Hrun1.
  assert (Hres1 : assoc (uuid second) (items (queued_tasks st1))
                  = Some (mkInfo (timestamp first)
                                 (queue info) (taskname info))).
  { rewrite Hid. subst st1. unfold restamp. cbn.
    now rewrite assoc_overwrite_same, Hres. }
  pose proof (get_started_time_found _ _ _ Hres1) as Hrun2.
  exists st1. eexists.
  split; [apply (exec_run _ _ _ _ Hrun1)|].
  split; [apply getitem_Ok; now rewrite <- Hid|].
  split; [subst st1; unfold restamp, len; cbn; apply overwrite_length|].
  split; [apply (exec_run _ _ _ _ Hrun2)|].
  subst st1. cbn.
  split; [now rewrite !samples_observe_same|].
  split; [rewrite !value_dec_same; lia|].
  split; apply value_inc_same.
Qed.

End Duplicates.

(* ================================================================== *)
(** ** The cache under a run of events *)

Section Cache.
Import LimitedSizeDict LimitedSizeDictFacts Metrics MetricsFacts.

Variable strip_prefix_from_event : string -> string.

(** Which handler the table selects. *)
Lemma handlers_cases (event : Event) (st : state) :
  (Backlog.is_sent event = true /\
   handlers strip_prefix_from_event event st = get_sent_time event st) \/
  (Backlog.is_sent event = false /\ Backlog.is_started event = true /\
   handlers strip_prefix_from_event event st = get_started_time event st) \/
  (Backlog.is_sent event = false /\ Backlog.is_started event = false /\
   (handlers strip_prefix_from_event event st
    = get_task_done strip_prefix_from_event event st \/
    handlers strip_prefix_from_event event st = Ok (tt, st))).
Proof.
  unfold handlers, Backlog.is_started, Backlog.is_sent.
  destruct (String.eqb (type event) "task-sent"); [now left|].
  destruct (String.eqb (type event) "task-started"); [right; now left|].
  right; right. cbn.
  repeat match goal with
         | |- context [if ?b then _ else _] => destruct b
         end; auto.
Qed.

Lemma get_sent_time_within limit event st st' :
  (1 <= limit)%Z -> within_capacity limit st ->
  get_sent_time event st = Ok (tt, st') -> within_capacity limit st'.
Proof.
  intros Hcap [Hlim Hlen] Hrun. rewrite get_sent_time_run in Hrun.
  injection Hrun as <-. unfold within_capacity. cbn.
  rewrite size_limit_setitem. split; [exact Hlim|].
  rewrite <- Hlim. apply len_setitem_bound; lia.
Qed.

Lemma get_started_time_within limit event st st' :
  within_capacity limit st ->
  get_started_time event st = Ok (tt, st') -> within_capacity limit st'.
Proof.
  intros [Hlim Hlen] Hrun.
  destruct (assoc (uuid event) (items (queued_tasks st))) as [info|] eqn:E.
  - rewrite (get_started_time_found _ _ _ E) in Hrun. injection Hrun as <-.
    unfold within_capacity, restamp, len in *. cbn.
    rewrite overwrite_length. split; assumption.
  - rewrite (get_started_time_absent _ _ E) in Hrun. injection Hrun as <-.
    now split.
Qed.

Lemma get_task_done_within limit event st st' :
  within_capacity limit st ->
  get_task_done strip_prefix_from_event event st = Ok (tt, st') ->
  within_capacity limit st'.
Proof.
  intros [Hlim Hlen] Hrun.
  destruct (assoc (uuid event) (items (queued_tasks st))) as [info|] eqn:E.
  - rewrite (get_task_done_found _ _ _ _ E) in Hrun. injection Hrun as <-.
    unfold within_capacity. cbn. split; [exact Hlim|].
    pose proof (len_pop_bound (uuid event) (queued_tasks st)) as Hpop.
    unfold len, pop in *. cbn in *. lia.
  - rewrite (get_task_done_absent _ _ _ E) in Hrun. injection Hrun as <-.
    now split.
Qed.

Lemma handlers_within limit event st st' :
  (1 <= limit)%Z -> within_capacity limit st ->
  handlers strip_prefix_from_event event st = Ok (tt, st') ->
  within_capacity limit st'.
Proof.
  intros Hcap Hin Hrun.
  destruct (handlers_cases event st)
    as [[_ Heq] | [(_ & _ & Heq) | (_ & _ & [Heq | Heq])]];
    rewrite Heq in Hrun.
  - eapply get_sent_time_within; eauto.
  - eapply get_started_time_within; eauto.
  - eapply get_task_done_within; eauto.
  - now injection Hrun as <-.
Qed.

Lemma deliver_within limit events :
  (1 <= limit)%Z ->
  forall st, within_capacity limit st ->
  exists st',
    deliver strip_prefix_from_event events st = Ok (tt, st') /\
    within_capacity limit st'.
Proof.
  intros Hcap. induction events as [|event events IH]; intros st Hin.
  - now exists st.
  - destruct (handlers_total strip_prefix_from_event event st) as [st1 H1].
    rewrite (deliver_cons _ _ _ _ _ H1).
    apply IH. eapply handlers_within; eauto.
Qed.

(** C3. With a capacity of at least one (the contract's assumption), after
    every event of every delivered sequence, taken from the start of the
    program, the handlers have not raised and the number of resident
    records, which is what the tasksCaptured gauge reads, is at most the
    configured capacity. *)
Theorem cache_never_exceeds_capacity
    (limit : Z) (events : list Event) (n : nat) :
  (1 <= limit)%Z ->
  exists st,
    exec (deliver strip_prefix_from_event (take n events)) (initial limit)
    = Ok st /\
    (tasks_captured st <= limit)%Z.
Proof.
  intros Hcap.
  destruct (deliver_within limit (take n events) Hcap (initial limit))
    as (st & Hrun & _ & Hlen).
  { split; [reflexivity | cbn; lia]. }
  exists st. split; [apply (exec_run _ _ _ _ Hrun) | exact Hlen].
Qed.

(** C5. In a cache that is full (capacity at least one, unique keys), an
    enqueued event with a task id that is not resident evicts exactly the
    oldest-inserted record and nothing else, and its own record is
    resident afterwards as the newest one, so it is counted in
    queueLength; with a task id that is resident, the record is updated
    in place and the keys stay as they were.  With capacity 1, enqueuing
    A and then B leaves B resident and A evicted. *)
Theorem enqueue_at_capacity_evicts_oldest (event : Event) (st : state) :
  (1 <= size_limit (queued_tasks st))%Z ->
  Z.of_nat (len (queued_tasks st)) = size_limit (queued_tasks st) ->
  wf (queued_tasks st) ->
  (contains (uuid event) (queued_tasks st) = false ->
   exists oldest rest st',
     items (queued_tasks st) = oldest :: rest /\
     exec (get_sent_time event) st = Ok st' /\
     items (queued_tasks st') = rest ++ [(uuid event, sent_info event)] /\
     contains (uuid event) (queued_tasks st') = true /\
     contains (fst oldest) (queued_tasks st') = false /\
     len (queued_tasks st') = len (queued_tasks st) /\
     value (queue_length st') (routing_key event, name event)
     = (value (queue_length st) (routing_key event, name event) + 1)%Z) /\
  (contains (uuid event) (queued_tasks st) = true ->
   exists st',
     exec (get_sent_time event) st = Ok st' /\
     items (queued_tasks st')
     = overwrite (uuid event) (sent_info event) (items (queued_tasks st)) /\
     map fst (items (queued_tasks st')) = map fst (items (queued_tasks st)) /\
     getitem (uuid event) (queued_tasks st') = Ok (sent_info event)) /\
  (let st2 := Scenario.after_with 1 [Scenario.sentA; Scenario.sentB] in
   contains "B" (queued_tasks st2) = true /\
   contains "A" (queued_tasks st2) = false /\
   len (queued_tasks st2) = 1%nat).
Proof.
  intros Hcap Hfull Hwf. split; [|split].
  - intros Hnew.
    destruct (items (queued_tasks st)) as [|oldest rest] eqn:Hitems.
    { unfold len in Hfull. rewrite Hitems in Hfull. cbn in Hfull. lia. }
    exists oldest, rest. eexists. split; [reflexivity|].
    split; [apply (exec_run _ _ _ _ (get_sent_time_run event st))|].
    cbn.
    assert (Hset : setitem (uuid event) (sent_info event) (queued_tasks st)
                   = mk (size_limit (queued_tasks st))
                        (rest ++ [(uuid event, sent_info event)])).
    { unfold setitem, at_capacity. rewrite Hnew, Hitems.
      destruct (Z.leb_spec (size_limit (queued_tasks st))
                           (Z.of_nat (len (queued_tasks st)))); [reflexivity|].
      lia. }
    rewrite Hset. cbn. split; [reflexivity|].
    apply contains_false in Hnew. rewrite Hitems in Hnew.
    unfold wf in Hwf. rewrite Hitems in Hwf. cbn in Hwf.
    apply NoDup_cons in Hwf as [Hnotin _].
    destruct oldest as [k0 v0]. cbn in Hnew, Hnotin |- *.
    destruct (String.eqb_spec (uuid event) k0) as [Heq|Hne];
      [discriminate|].
    split; [|split; [|split]].
    + apply contains_true. exists (sent_info event). cbn.
      rewrite assoc_app, Hnew. cbn. now rewrite eqb_same.
    + apply contains_false. cbn. rewrite assoc_app.
      apply assoc_None_keys in Hnotin. rewrite Hnotin. cbn.
      rewrite eqb_diff by congruence. reflexivity.
    + unfold len. cbn. rewrite Hitems, length_app. cbn. lia.
    + apply value_inc_same.
  - intros Hold. eexists.
    split; [apply (exec_run _ _ _ _ (get_sent_time_run event st))|].
    cbn. unfold setitem. rewrite Hold. cbn.
    split; [reflexivity|]. split; [apply overwrite_keys|].
    apply getitem_Ok. cbn.
    apply contains_true in Hold as [v Hv].
    now rewrite assoc_overwrite_same, Hv.
  - cbv zeta. repeat split; vm_compute; reflexivity.
Qed.

(** The subscription call with a positive limit hands over only the
    first [limit] events. *)
Lemma capture_stops_at_limit (limit : Z) (events extra : list Event) :
  (0 < limit)%Z -> length events = Z.to_nat limit ->
  capture strip_prefix_from_event limit (events ++ extra)
  = capture strip_prefix_from_event limit events.
Proof.
  intros Hpos Hlen. unfold capture.
  destruct (Z.ltb_spec 0 limit); [|lia].
  rewrite <- Hlen, take_app_length.
  now rewrite firstn_all.
Qed.

End Cache.

(** C7 (the code departs from it). [my_monitor] passes
    [MAX_TASKS_CAPTURED] as the subscription's event limit and issues the
    call once: with the limit at 1, the second of two delivered events is
    never handled, so B is not tracked and queueLength stays at 1. *)
Theorem capture_limit_ends_monitoring :
  my_monitor Scenario.strip_prefix_from_event 1
    [Scenario.sentA; Scenario.sentB]
  = my_monitor Scenario.strip_prefix_from_event 1 [Scenario.sentA] /\
  exists st,
    my_monitor Scenario.strip_prefix_from_event 1
      [Scenario.sentA; Scenario.sentB] = Ok st /\
    LimitedSizeDict.contains "B" (queued_tasks st) = false /\
    Metrics.value (queue_length st) ("q1", "foo") = 1%Z.
Proof.
  split.
  - unfold my_monitor.
    now rewrite (capture_stops_at_limit _ 1 [Scenario.sentA] [Scenario.sentB]).
  - eexists. split; [vm_compute; reflexivity|].
    split; vm_compute; reflexivity.
Qed.

(* ================================================================== *)
(** ** The backlog gauge *)

Section BacklogFacts.
Import LimitedSizeDict LimitedSizeDictFacts Metrics MetricsFacts Backlog.

Implicit Types (labels : string * string) (started : gset string)
  (l : list (string * task_info)) (k : string).

Lemma value_inc labels (mine : string * string)
    (g : gmap (string * string) Z) :
  value (inc mine g) labels = (value g labels + share mine labels)%Z.
Proof.
  unfold share. case_bool_decide as E.
  - subst. apply value_inc_same.
  - rewrite value_inc_other by exact E. lia.
Qed.

Lemma value_dec labels (mine : string * string)
    (g : gmap (string * string) Z) :
  value (dec mine g) labels = (value g labels - share mine labels)%Z.
Proof.
  unfold share. case_bool_decide as E.
  - subst. apply value_dec_same.
  - rewrite value_dec_other by exact E. lia.
Qed.

Lemma pending_untrack started k k' :
  k <> k' ->
  bool_decide (k' ∉ started ∖ {[k]}) = bool_decide (k' ∉ started).
Proof.
  intros Hne. apply bool_decide_ext.
  rewrite elem_of_difference, elem_of_singleton.
  split; intros Hno Hin; apply Hno; [split; congruence | tauto].
Qed.

Lemma pending_track started k k' :
  k <> k' ->
  bool_decide (k' ∉ started ∪ {[k]}) = bool_decide (k' ∉ started).
Proof.
  intros Hne. apply bool_decide_ext.
  rewrite elem_of_union, elem_of_singleton.
  split; intros Hno Hin; apply Hno; [now left|].
  destruct Hin as [Hin | ->]; [exact Hin | congruence].
Qed.

Lemma pending_tracked started k :
  bool_decide (k ∉ started ∪ {[k]}) = false.
Proof.
  apply bool_decide_eq_false_2. intros Hno. apply Hno.
  apply elem_of_union. right. now apply elem_of_singleton.
Qed.

Lemma waiting_app labels started l l' :
  waiting labels started (l ++ l')
  = (waiting labels started l + waiting labels started l')%nat.
Proof.
  induction l as [|[k info] l IH]; cbn; [reflexivity|]. rewrite IH. lia.
Qed.

Lemma waiting_evict_oldest labels started l :
  (waiting labels started (evict_oldest l) <= waiting labels started l)%nat.
Proof. destruct l as [|[k info] l]; cbn; lia. Qed.

Lemma waiting_remove labels started k l :
  (waiting labels started (remove k l) <= waiting labels started l)%nat.
Proof.
  induction l as [|[k' info] l IH]; cbn; [lia|].
  destruct (String.eqb k k'); cbn; lia.
Qed.

Lemma waiting_untrack_absent labels started k l :
  k ∉ map fst l ->
  waiting labels (started ∖ {[k]}) l = waiting labels started l.
Proof.
  induction l as [|[k' info] l IH]; cbn; [reflexivity|].
  intros Hnotin. apply not_elem_of_cons in Hnotin as [Hne Hnotin].
  rewrite (IH Hnotin).
  now rewrite pending_untrack by congruence.
Qed.

(** Writing a resident task's record again and taking the task out of
    the tracked set adds at most the new record to its own series. *)
Lemma waiting_overwrite_untrack labels started k info l :
  NoDup (map fst l) ->
  (Z.of_nat (waiting labels (started ∖ {[k]}) (overwrite k info l))
   <= Z.of_nat (waiting labels started l)
      + share (queue info, taskname info) labels)%Z.
Proof.
  induction l as [|[k' info'] l IH]; cbn; intros Hnd.
  - unfold share. case_bool_decide; lia.
  - apply NoDup_cons in Hnd as [Hnotin Hnd].
    destruct (String.eqb_spec k k') as [<-|Hne]; cbn.
    + rewrite overwrite_absent by now apply assoc_None_keys.
      rewrite (waiting_untrack_absent _ _ _ _ Hnotin).
      unfold share.
      repeat case_bool_decide; cbn; lia.
    + specialize (IH Hnd).
      rewrite pending_untrack by exact Hne. lia.
Qed.

(** Tracking a task as started never adds to a series. *)
Lemma waiting_overwrite_track_le labels started k info l :
  (waiting labels (started ∪ {[k]}) (overwrite k info l)
   <= waiting labels started l)%nat.
Proof.
  induction l as [|[k' info'] l IH]; cbn; [lia|].
  destruct (String.eqb_spec k k') as [<-|Hne]; cbn.
  - rewrite pending_tracked. cbn. lia.
  - rewrite pending_track by exact Hne. lia.
Qed.

(** The first start of a resident task takes its record out of its
    series. *)
Lemma waiting_restamp_track labels started k x info l :
  assoc k l = Some info -> k ∉ started ->
  (Z.of_nat (waiting labels (started ∪ {[k]})
               (overwrite k (mkInfo x (queue info) (taskname info)) l))
   + share (queue info, taskname info) labels
   <= Z.of_nat (waiting labels started l))%Z.
Proof.
  intros Hres Hfresh.
  induction l as [|[k' info'] l IH]; cbn in *; [discriminate|].
  destruct (String.eqb_spec k k') as [<-|Hne]; cbn.
  - injection Hres as ->.
    pose proof (waiting_overwrite_track_le labels started k
                  (mkInfo x (queue info) (taskname info)) l).
    rewrite pending_tracked.
    rewrite (bool_decide_eq_true_2 (k ∉ started)) by exact Hfresh.
    unfold share. case_bool_decide; cbn; lia.
  - specialize (IH Hres). rewrite pending_track by exact Hne. lia.
Qed.

Lemma wf_setitem k (info : task_info) (d : t task_info) :
  wf d -> wf (setitem k info d).
Proof.
  unfold wf, setitem. intros Hwf.
  destruct (contains k d) eqn:Hc; cbn.
  - now rewrite overwrite_keys.
  - apply contains_false, assoc_None_keys in Hc.
    assert (Hadd : forall l, NoDup (map fst l) -> k ∉ map fst l ->
                             NoDup (map fst (l ++ [(k, info)]))).
    { intros l Hnd Hnotin. rewrite map_app. cbn.
      apply NoDup_app. split; [exact Hnd|]. split.
      - intros x Hx Hx'. apply list_elem_of_singleton in Hx'. now subst.
      - apply NoDup_singleton. }
    destruct (at_capacity d); [|now apply Hadd].
    destruct (items d) as [|[k0 v0] l]; cbn in *; [now apply (Hadd [])|].
    apply NoDup_cons in Hwf as [_ Hwf].
    apply not_elem_of_cons in Hc as [_ Hc]. now apply (Hadd l).
Qed.

Lemma wf_remove k (l : list (string * task_info)) :
  NoDup (map fst l) -> NoDup (map fst (remove k l)).
Proof.
  induction l as [|[k' info] l IH]; cbn; [trivial|].
  intros Hnd. apply NoDup_cons in Hnd as [Hnotin Hnd].
  destruct (String.eqb k k'); cbn; [now apply IH|].
  apply NoDup_cons. split; [|now apply IH].
  intros Hin. apply Hnotin.
  clear -Hin. induction l as [|[k'' info''] l IH]; cbn in *; [easy|].
  destruct (String.eqb k k''); cbn in *.
  - right. now apply IH.
  - apply elem_of_cons in Hin as [->|Hin]; [left | right; now apply IH].
Qed.

End BacklogFacts.

Section BacklogInvariant.
Import LimitedSizeDict LimitedSizeDictFacts Metrics MetricsFacts Backlog.

Variable strip_prefix_from_event : string -> string.
Implicit Types (labels : string * string) (started : gset string)
  (event : Event) (st : state).

Lemma waiting_setitem_untrack labels started (k : string)
    (info : task_info) (d : t task_info) :
  wf d ->
  (Z.of_nat (waiting labels (started ∖ {[k]}) (items (setitem k info d)))
   <= Z.of_nat (waiting labels started (items d))
      + share (queue info, taskname info) labels)%Z.
Proof.
  intros Hwf. unfold setitem.
  destruct (contains k d) eqn:Hc; cbn.
  - now apply waiting_overwrite_untrack.
  - apply contains_false, assoc_None_keys in Hc.
    assert (Hnew : (Z.of_nat (waiting labels (started ∖ {[k]}) [(k, info)])
                    <= share (queue info, taskname info) labels)%Z).
    { cbn. unfold share. repeat case_bool_decide; cbn; lia. }
    pose proof (waiting_evict_oldest labels (started ∖ {[k]}) (items d)).
    pose proof (waiting_untrack_absent labels started k (items d) Hc).
    destruct (at_capacity d); cbn; rewrite waiting_app; lia.
Qed.

Lemma get_sent_time_invariant event st started :
  invariant st started ->
  exists st',
    get_sent_time event st = Ok (tt, st') /\
    invariant st' (started ∖ {[uuid event]}).
Proof.
  intros [Hwf Hbound]. eexists. split; [apply get_sent_time_run|].
  split; cbn.
  - now apply wf_setitem.
  - intros labels. rewrite value_inc.
    pose proof (waiting_setitem_untrack labels started (uuid event)
                  (sent_info event) (queued_tasks st) Hwf) as Hset.
    specialize (Hbound labels). cbn in Hset. lia.
Qed.

Lemma get_started_time_invariant event st started :
  invariant st started ->
  (contains (uuid event) (queued_tasks st) = true ->
   uuid event ∉ started) ->
  exists st',
    get_started_time event st = Ok (tt, st') /\
    invariant st'
      (if contains (uuid event) (queued_tasks st)
       then started ∪ {[uuid event]} else started).
Proof.
  intros [Hwf Hbound] Hfresh.
  destruct (assoc (uuid event) (items (queued_tasks st))) as [info|] eqn:E.
  - assert (Hc : contains (uuid event) (queued_tasks st) = true)
      by (apply contains_true; eauto).
    rewrite Hc. specialize (Hfresh Hc).
    eexists. split; [apply (get_started_time_found _ _ _ E)|].
    split; cbn.
    + unfold wf, restamp. cbn. now rewrite overwrite_keys.
    + intros labels. rewrite value_dec.
      pose proof (waiting_restamp_track labels started (uuid event)
                    (timestamp event) info _ E Hfresh).
      specialize (Hbound labels). unfold restamp. cbn. lia.
  - assert (Hc : contains (uuid event) (queued_tasks st) = false)
      by now apply contains_false.
    rewrite Hc. exists st.
    split; [apply (get_started_time_absent _ _ E) | now split].
Qed.

Lemma get_task_done_invariant event st started :
  invariant st started ->
  exists st',
    get_task_done strip_prefix_from_event event st = Ok (tt, st') /\
    invariant st' started.
Proof.
  intros [Hwf Hbound].
  destruct (assoc (uuid event) (items (queued_tasks st))) as [info|] eqn:E.
  - eexists. split; [apply (get_task_done_found _ _ _ _ E)|].
    split; cbn.
    + now apply wf_remove.
    + intros labels. specialize (Hbound labels).
      pose proof (waiting_remove labels started (uuid event)
                    (items (queued_tasks st))).
      lia.
  - exists st.
    split; [apply (get_task_done_absent _ _ _ E) | now split].
Qed.

Lemma handlers_invariant event st started :
  invariant st started ->
  restart event st started = false ->
  exists st',
    handlers strip_prefix_from_event event st = Ok (tt, st') /\
    invariant st' (track event st started).
Proof.
  intros Hinv Hok. unfold restart in Hok. unfold track.
  destruct (handlers_cases strip_prefix_from_event event st)
    as [[Hs Heq] | [(Hs & Ht & Heq) | (Hs & Ht & [Heq | Heq])]];
    rewrite Heq, Hs, ?Ht.
  - now apply get_sent_time_invariant.
  - apply get_started_time_invariant; [exact Hinv|].
    intros Hc. rewrite Ht, Hc in Hok. cbn in Hok.
    now apply bool_decide_eq_false in Hok.
  - now apply get_task_done_invariant.
  - now exists st.
Qed.

Lemma starts_once_invariant (events : list Event) :
  forall st started,
    invariant st started ->
    starts_once strip_prefix_from_event events st started = true ->
    exists st' started',
      deliver strip_prefix_from_event events st = Ok (tt, st') /\
      invariant st' started'.
Proof.
  induction events as [|event events IH]; intros st started Hinv Hok.
  - now exists st, started.
  - cbn in Hok. apply andb_prop in Hok as [Hfirst Hrest].
    apply negb_true_iff in Hfirst.
    destruct (handlers_invariant event st started Hinv Hfirst)
      as (st1 & Hrun & Hinv1).
    rewrite (exec_run _ _ _ _ Hrun) in Hrest.
    rewrite (deliver_cons _ _ _ _ _ Hrun). eapply IH; eauto.
Qed.

Lemma starts_once_take (events : list Event) :
  forall n st started,
    starts_once strip_prefix_from_event events st started = true ->
    starts_once strip_prefix_from_event (take n events) st started = true.
Proof.
  induction events as [|event events IH]; intros [|n] st started Hok;
    try reflexivity.
  cbn in *. apply andb_prop in Hok as [Hfirst Hrest].
  rewrite Hfirst. cbn.
  destruct (exec (handlers strip_prefix_from_event event) st);
    [now apply IH | reflexivity].
Qed.

Lemma invariant_initial (limit : Z) : invariant (initial limit) ∅.
Proof.
  split; cbn.
  - apply NoDup_nil_2.
  - intros labels. reflexivity.
Qed.

(** C4 (as amended). From the start of the program, along every sequence
    of events in which no started event is handled for a task that is
    resident and has already been started since its record was last
    written by an enqueued event, the handlers do not raise and every
    queueLength series is non-negative after each event. *)
Theorem backlog_never_negative_without_restart
    (limit : Z) (events : list Event) (n : nat) (labels : string * string) :
  starts_once strip_prefix_from_event events (initial limit) ∅ = true ->
  exists st,
    exec (deliver strip_prefix_from_event (take n events)) (initial limit)
    = Ok st /\
    (0 <= value (queue_length st) labels)%Z.
Proof.
  intros Hok. apply (starts_once_take _ n) in Hok.
  destruct (starts_once_invariant _ _ _ (invariant_initial limit) Hok)
    as (st & started & Hrun & _ & Hbound).
  exists st. split; [apply (exec_run _ _ _ _ Hrun)|].
  specialize (Hbound labels). lia.
Qed.

End BacklogInvariant.

(** C4 (as stated) fails: task A is enqueued once on (q1, foo) and its
    started event is delivered twice; the record is still resident at the
    second delivery, the gauge is decremented again and reads -1. *)
Lemma duplicate_started_makes_backlog_negative :
  exists st,
    exec (deliver Scenario.strip_prefix_from_event
            [Scenario.sentA; Scenario.startedA; Scenario.startedA'])
         (initial 100000) = Ok st /\
    Metrics.value (queue_length st) ("q1", "foo") = (-1)%Z.
Proof.
  eexists. split; vm_compute; reflexivity.
Qed.

(* ================================================================== *)
(** ** The scenarios, through the theorems *)

Module Witness.
Import LimitedSizeDict Metrics Scenario.

(** Scenario A, first half: A is enqueued at 100 and started at 105. *)
Lemma waiting_time_is_started_minus_enqueued_witness :
  exists st',
    exec (get_started_time startedA) (after [sentA]) = Ok st' /\
    samples (waiting_time st') ("q1", "foo") = [5%float].
Proof.
  destruct (waiting_time_is_started_minus_enqueued
              sentA startedA (after [sentA]))
    as (st' & Hrun & Hobs & _).
  - reflexivity.
  - vm_compute. reflexivity.
  - exists st'. split; [exact Hrun | exact Hobs].
Defined.

(** Scenario A, second half: A, started at 105, succeeds at 130. *)
Lemma execution_duration_is_terminal_minus_started_witness :
  exists st1,
    exec (get_started_time startedA) (after [sentA]) = Ok st1 /\
    exists st3,
      exec (get_task_done strip_prefix_from_event succeededA) st1 = Ok st3 /\
      samples (execution_stats st3) ("q1", "foo", "w1", "succeeded")
      = 25%float
          :: samples (execution_stats st1) ("q1", "foo", "w1", "succeeded") /\
      contains "A" (queued_tasks st3) = false.
Proof.
  destruct (execution_duration_is_terminal_minus_started
              strip_prefix_from_event startedA succeededA (after [sentA])
              (mkInfo 100 "q1" "foo"))
    as (st1 & Hrun & Hnext).
  - vm_compute. reflexivity.
  - reflexivity.
  - exists st1. split; [exact Hrun|]. exact (Hnext st1 eq_refl).
Defined.

Lemma cache_never_exceeds_capacity_witness :
  exists st,
    exec (deliver strip_prefix_from_event
            (take 2 [sentA; sentB; startedA])) (initial 100000) = Ok st /\
    (tasks_captured st <= 100000)%Z.
Proof.
  apply (cache_never_exceeds_capacity strip_prefix_from_event 100000
           [sentA; sentB; startedA] 2).
  lia.
Defined.

(** A is enqueued, started, enqueued again and started again. *)
Lemma backlog_never_negative_without_restart_witness :
  exists st,
    exec (deliver strip_prefix_from_event
            (take 4 [sentA; startedA; sentA; startedA'; succeededA]))
         (initial 100000) = Ok st /\
    (0 <= value (queue_length st) ("q1", "foo"))%Z.
Proof.
  apply (backlog_never_negative_without_restart strip_prefix_from_event
           100000 [sentA; startedA; sentA; startedA'; succeededA] 4
           ("q1", "foo")).
  vm_compute. reflexivity.
Defined.

(** Scenario C: capacity 1, A resident, B enqueued. *)
Lemma enqueue_at_capacity_evicts_oldest_witness :
  exists oldest rest st',
    items (queued_tasks (after_with 1 [sentA])) = oldest :: rest /\
    exec (get_sent_time sentB) (after_with 1 [sentA]) = Ok st' /\
    items (queued_tasks st') = rest ++ [("B", sent_info sentB)] /\
    contains "B" (queued_tasks st') = true /\
    contains (fst oldest) (queued_tasks st') = false.
Proof.
  destruct (enqueue_at_capacity_evicts_oldest sentB (after_with 1 [sentA]))
    as (Hnew & _ & _).
  - vm_compute. discriminate.
  - vm_compute. reflexivity.
  - apply (bool_decide_unpack _). vm_compute. exact I.
  - destruct Hnew as (oldest & rest & st' & H1 & H2 & H3 & H4 & H5 & _).
    + vm_compute. reflexivity.
    + exists oldest, rest, st'. repeat split; assumption.
Defined.

(** Scenario B: Z was never enqueued. *)
Lemma orphan_event_is_ignored_witness :
  exec (get_started_time startedZ) (after [sentA]) = Ok (after [sentA]) /\
  exec (get_task_done strip_prefix_from_event startedZ) (after [sentA])
  = Ok (after [sentA]).
Proof.
  apply (orphan_event_is_ignored strip_prefix_from_event startedZ
           (after [sentA])).
  vm_compute. reflexivity.
Defined.

Lemma queue_and_task_labels_come_from_record_witness :
  exists st',
    exec (get_started_time startedA) (after [sentA]) = Ok st' /\
    tasks_running st'
    = inc ("q1", "foo", "w1") (tasks_running (after [sentA])).
Proof.
  destruct (queue_and_task_labels_come_from_record
              strip_prefix_from_event startedA (after [sentA])
              (mkInfo 100 "q1" "foo"))
    as [(st' & Hrun & _ & _ & Hworker & _) _].
  - vm_compute. reflexivity.
  - exists st'. split; [exact Hrun | exact Hworker].
Defined.

(** A, resident, is enqueued three more times. *)
Lemma resident_enqueue_overwrites_and_counts_witness :
  exists stn,
    exec (repeated 3 (get_sent_time sentA)) (after [sentA]) = Ok stn /\
    map fst (items (queued_tasks stn)) = ["A"] /\
    value (queue_length stn) ("q1", "foo") = 4%Z.
Proof.
  destruct (resident_enqueue_overwrites_and_counts
              sentA (after [sentA]) (mkInfo 100 "q1" "foo") 3)
    as [_ (stn & Hrun & Hkeys & Hcount)].
  - vm_compute. reflexivity.
  - exists stn. split; [exact Hrun|]. split; [exact Hkeys | exact Hcount].
Defined.

(** A is started at 105 and again at 112. *)
Lemma second_started_repeats_transition_witness :
  exists st1 st2,
    exec (get_started_time startedA) (after [sentA]) = Ok st1 /\
    exec (get_started_time startedA') st1 = Ok st2 /\
    samples (waiting_time st2) ("q1", "foo") = [7%float; 5%float] /\
    value (queue_length st2) ("q1", "foo") = (-1)%Z.
Proof.
  destruct (second_started_repeats_transition
              startedA startedA' (after [sentA]) (mkInfo 100 "q1" "foo"))
    as (st1 & st2 & Hrun1 & _ & _ & Hrun2 & Hobs & Hlen & _).
  - vm_compute. reflexivity.
  - reflexivity.
  - exists st1, st2.
    split; [exact Hrun1|]. split; [exact Hrun2|].
    split; [exact Hobs | exact Hlen].
Defined.

End Witness.


(* ================================================================== *)
(** ** Handlers in sequence *)

Section Sequences.
Import LimitedSizeDict LimitedSizeDictFacts Metrics MetricsFacts.

Variable strip_prefix_from_event : string -> string.
Implicit Types (event sent started done : Event) (st : state)
  (info : task_info).

Lemma seq_run {A} (m : M unit) (k : M A) st st1 :
  m st = Ok (tt, st1) -> (m ;; k) st = k st1.
Proof. intros Hm. unfold mbind, M_bind. now rewrite Hm. Qed.

(** No handler raises, whatever the event and the state: every read of
    [queued_tasks[task_id]] sits under the membership test.  Hence a whole
    delivery of events always runs to its end. *)
Theorem delivery_never_raises (events : list Event) st :
  exists st', exec (deliver strip_prefix_from_event events) st = Ok st'.
Proof.
  destruct (deliver_total strip_prefix_from_event events st) as [st' Hrun].
  exists st'. apply (exec_run _ _ _ _ Hrun).
Qed.

(** What each handler leaves alone, for every event and state:
    [get_sent_time] touches neither waiting_time, tasks_running nor
    execution_stats; [get_started_time] touches neither execution_stats nor
    the keys (and their order) of the cache; [get_task_done] touches neither
    waiting_time nor queue_length. *)
Theorem handlers_leave_the_rest_alone event st :
  (exists st',
     exec (get_sent_time event) st = Ok st' /\
     waiting_time st' = waiting_time st /\
     tasks_running st' = tasks_running st /\
     execution_stats st' = execution_stats st) /\
  (exists st',
     exec (get_started_time event) st = Ok st' /\
     execution_stats st' = execution_stats st /\
     map fst (items (queued_tasks st')) = map fst (items (queued_tasks st))) /\
  (exists st',
     exec (get_task_done strip_prefix_from_event event) st = Ok st' /\
     waiting_time st' = waiting_time st /\
     queue_length st' = queue_length st).
Proof.
  split; [|split].
  - eexists. split; [apply (exec_run _ _ _ _ (get_sent_time_run event st))|].
    cbn. repeat split.
  - destruct (assoc (uuid event) (items (queued_tasks st))) as [info|] eqn:E.
    + eexists. split; [apply (exec_run _ _ _ _
                                (get_started_time_found _ _ _ E))|].
      cbn. split; [reflexivity | apply overwrite_keys].
    + exists st. split; [apply (exec_run _ _ _ _
                                  (get_started_time_absent _ _ E))|].
      now split.
  - destruct (assoc (uuid event) (items (queued_tasks st))) as [info|] eqn:E.
    + eexists. split; [apply (exec_run _ _ _ _
                                (get_task_done_found _ _ _ _ E))|].
      cbn. now split.
    + exists st. split; [apply (exec_run _ _ _ _
                                  (get_task_done_absent _ _ _ E))|].
      now split.
Qed.

(** The state after a started event and then a terminal event of a
    resident task. *)
Lemma started_then_done_run started done st info :
  assoc (uuid started) (items (queued_tasks st)) = Some info ->
  uuid done = uuid started ->
  (get_started_time started ;; get_task_done strip_prefix_from_event done) st
  = Ok (tt,
        mkState
          (pop (uuid done)
             (restamp (uuid started) (timestamp started) info
                (queued_tasks st)))
          (observe (queue info, taskname info)
             (PrimFloat.sub (timestamp started) (ts info)) (waiting_time st))
          (dec (queue info, taskname info) (queue_length st))
          (dec (queue info, taskname info, hostname done)
             (inc (queue info, taskname info, hostname started)
                (tasks_running st)))
          (observe
             (queue info, taskname info, hostname done,
              strip_prefix_from_event (type done))
             (PrimFloat.sub (timestamp done) (timestamp started))
             (execution_stats st))).
Proof.
  intros Hres Hid.
  rewrite (seq_run _ _ _ _ (get_started_time_found _ _ _ Hres)).
  set (st1 := mkState _ _ _ _ _).
  assert (Hres1 : assoc (uuid done) (items (queued_tasks st1))
                  = Some (mkInfo (timestamp started)
                                 (queue info) (taskname info))).
  { rewrite Hid. subst st1. unfold restamp. cbn.
    now rewrite assoc_overwrite_same, Hres. }
  rewrite (get_task_done_found _ _ _ _ Hres1). reflexivity.
Qed.

(** When the started and the terminal event of a resident task name the
    same worker, tasks_running for that worker is back where it was, the
    backlog gauge is one lower and the task is no longer tracked. *)
Theorem started_then_done_balances_running started done st info :
  getitem (uuid started) (queued_tasks st) = Ok info ->
  uuid done = uuid started ->
  hostname done = hostname started ->
  exists st2,
    exec (get_started_time started ;;
          get_task_done strip_prefix_from_event done) st = Ok st2 /\
    value (tasks_running st2)
      (queue info, taskname info, hostname started)
    = value (tasks_running st)
        (queue info, taskname info, hostname started) /\
    value (queue_length st2) (queue info, taskname info)
    = (value (queue_length st) (queue info, taskname info) - 1)%Z /\
    contains (uuid started) (queued_tasks st2) = false.
Proof.
  intros Hres Hid Hhost. apply getitem_Ok in Hres.
  eexists. split; [apply (exec_run _ _ _ _
                            (started_then_done_run _ _ _ _ Hres Hid))|].
  cbn. rewrite Hhost, value_dec_same, value_inc_same, value_dec_same.
  split; [lia|]. split; [reflexivity|].
  rewrite Hid. apply contains_false, assoc_remove_same.
Qed.

(** When the terminal event names another worker than the started event
    did, the running gauge of the starting worker stays one up and the
    running gauge of the finishing worker goes one down. *)
Theorem worker_mismatch_unbalances_running started done st info :
  getitem (uuid started) (queued_tasks st) = Ok info ->
  uuid done = uuid started ->
  hostname done <> hostname started ->
  exists st2,
    exec (get_started_time started ;;
          get_task_done strip_prefix_from_event done) st = Ok st2 /\
    value (tasks_running st2)
      (queue info, taskname info, hostname started)
    = (value (tasks_running st)
         (queue info, taskname info, hostname started) + 1)%Z /\
    value (tasks_running st2) (queue info, taskname info, hostname done)
    = (value (tasks_running st)
         (queue info, taskname info, hostname done) - 1)%Z.
Proof.
  intros Hres Hid Hhost. apply getitem_Ok in Hres.
  eexists. split; [apply (exec_run _ _ _ _
                            (started_then_done_run _ _ _ _ Hres Hid))|].
  cbn. split.
  - rewrite value_dec_other by congruence. apply value_inc_same.
  - rewrite value_dec_same, value_inc_other by congruence. reflexivity.
Qed.

End Sequences.

Section Lifecycles.
Import LimitedSizeDict LimitedSizeDictFacts Metrics MetricsFacts.

Variable strip_prefix_from_event : string -> string.
Implicit Types (event sent started done later : Event) (st : state)
  (info : task_info).

(** A task that is enqueued and then reaches a terminal state without a
    started event in between (a task revoked while it waits, say): with a
    capacity of at least one, the terminal handler takes the stored enqueue
    time for the start time, so the observed duration is
    terminal.timestamp - enqueued.timestamp; tasks_running for the reporting
    worker goes one below where it was, and the backlog gauge keeps the
    increment of the enqueue. *)
Theorem terminal_without_started sent done st :
  (1 <= size_limit (queued_tasks st))%Z ->
  uuid done = uuid sent ->
  exists st2,
    exec (get_sent_time sent ;;
          get_task_done strip_prefix_from_event done) st = Ok st2 /\
    samples (execution_stats st2)
      (routing_key sent, name sent, hostname done,
       strip_prefix_from_event (type done))
    = PrimFloat.sub (timestamp done) (timestamp sent)
        :: samples (execution_stats st)
             (routing_key sent, name sent, hostname done,
              strip_prefix_from_event (type done)) /\
    value (tasks_running st2) (routing_key sent, name sent, hostname done)
    = (value (tasks_running st)
         (routing_key sent, name sent, hostname done) - 1)%Z /\
    value (queue_length st2) (routing_key sent, name sent)
    = (value (queue_length st) (routing_key sent, name sent) + 1)%Z /\
    waiting_time st2 = waiting_time st /\
    contains (uuid sent) (queued_tasks st2) = false.
Proof.
  intros _ Hid.
  pose proof (get_sent_time_run sent st) as Hrun1.
  set (st1 := mkState _ _ _ _ _) in Hrun1.
  assert (Hres1 : assoc (uuid done) (items (queued_tasks st1))
                  = Some (sent_info sent)).
  { rewrite Hid. subst st1. cbn. apply assoc_setitem_same. }
  eexists. split.
  { apply (exec_run _ _ _ tt). rewrite (seq_run _ _ _ _ Hrun1).
    apply (get_task_done_found _ _ _ _ Hres1). }
  subst st1. cbn.
  split; [apply samples_observe_same|].
  split; [apply value_dec_same|].
  split; [apply value_inc_same|].
  split; [reflexivity|].
  rewrite Hid. apply contains_false, assoc_remove_same.
Qed.


(** A terminal event delivered again finds nothing: once [get_task_done]
    has handled a resident task, any further terminal or started event for
    that task id leaves the state as it is. *)
Theorem duplicate_terminal_is_ignored done later st info :
  getitem (uuid done) (queued_tasks st) = Ok info ->
  uuid later = uuid done ->
  exists st1,
    exec (get_task_done strip_prefix_from_event done) st = Ok st1 /\
    exec (get_task_done strip_prefix_from_event later) st1 = Ok st1 /\
    exec (get_started_time later) st1 = Ok st1.
Proof.
  intros Hres Hid. apply getitem_Ok in Hres.
  pose proof (get_task_done_found strip_prefix_from_event _ _ _ Hres)
    as Hrun.
  set (st1 := mkState _ _ _ _ _) in Hrun.
  assert (Habs : assoc (uuid later) (items (queued_tasks st1)) = None).
  { rewrite Hid. subst st1. cbn. apply assoc_remove_same. }
  exists st1. split; [apply (exec_run _ _ _ _ Hrun)|]. split.
  - apply (exec_run _ _ _ _ (get_task_done_absent _ _ _ Habs)).
  - apply (exec_run _ _ _ _ (get_started_time_absent _ _ Habs)).
Qed.

Lemma getitem_ext (k : string) (d d' : t task_info) :
  assoc k (items d') = assoc k (items d) -> getitem k d' = getitem k d.
Proof. intros Heq. unfold getitem. now rewrite Heq. Qed.

(** A started or terminal event touches no record but its own task's, and
    so does an enqueued event that needs no eviction (its task is resident
    or the cache is below capacity). *)
Theorem other_tasks_are_untouched event st (k : string) :
  k <> uuid event ->
  (exists st',
     exec (get_started_time event) st = Ok st' /\
     getitem k (queued_tasks st') = getitem k (queued_tasks st)) /\
  (exists st',
     exec (get_task_done strip_prefix_from_event event) st = Ok st' /\
     getitem k (queued_tasks st') = getitem k (queued_tasks st)) /\
  (contains (uuid event) (queued_tasks st) = true \/
   (tasks_captured st < size_limit (queued_tasks st))%Z ->
   exists st',
     exec (get_sent_time event) st = Ok st' /\
     getitem k (queued_tasks st') = getitem k (queued_tasks st)).
Proof.
  intros Hne. split; [|split].
  - destruct (assoc (uuid event) (items (queued_tasks st))) as [info|] eqn:E.
    + eexists. split; [apply (exec_run _ _ _ _
                                (get_started_time_found _ _ _ E))|].
      apply getitem_ext. unfold restamp. cbn.
      apply assoc_overwrite_other. congruence.
    + exists st. split; [apply (exec_run _ _ _ _
                                  (get_started_time_absent _ _ E))|].
      reflexivity.
  - destruct (assoc (uuid event) (items (queued_tasks st))) as [info|] eqn:E.
    + eexists. split; [apply (exec_run _ _ _ _
                                (get_task_done_found _ _ _ _ E))|].
      apply getitem_ext. cbn. apply assoc_remove_other. congruence.
    + exists st. split; [apply (exec_run _ _ _ _
                                  (get_task_done_absent _ _ _ E))|].
      reflexivity.
  - intros Hroom. eexists.
    split; [apply (exec_run _ _ _ _ (get_sent_time_run event st))|].
    apply getitem_ext. cbn. unfold setitem.
    destruct (contains (uuid event) (queued_tasks st)) eqn:Hc; cbn.
    + apply assoc_overwrite_other. congruence.
    + destruct Hroom as [Hroom | Hroom]; [discriminate|].
      unfold at_capacity, tasks_captured in *.
      destruct (Z.leb_spec (size_limit (queued_tasks st))
                           (Z.of_nat (len (queued_tasks st)))); [lia|].
      cbn. rewrite assoc_app.
      destruct (assoc k (items (queued_tasks st))); [reflexivity|].
      cbn. now rewrite eqb_diff.
Qed.

End Lifecycles.

Section Tracking.
Import LimitedSizeDict LimitedSizeDictFacts Metrics MetricsFacts.

Variable strip_prefix_from_event : string -> string.
Implicit Types (event later : Event) (st : state) (info : task_info).

Lemma remove_length_found (k : string) (l : list (string * task_info)) info :
  NoDup (map fst l) -> assoc k l = Some info ->
  S (length (remove k l)) = length l.
Proof.
  induction l as [|[k' info'] l IH]; cbn; [discriminate|].
  intros Hnd Hres. apply NoDup_cons in Hnd as [Hnotin Hnd].
  destruct (String.eqb_spec k k') as [<-|Hne]; cbn.
  - rewrite remove_absent by now apply assoc_None_keys. reflexivity.
  - now rewrite (IH Hnd Hres).
Qed.

Lemma handlers_wf event st st' :
  wf (queued_tasks st) ->
  handlers strip_prefix_from_event event st = Ok (tt, st') ->
  wf (queued_tasks st').
Proof.
  intros Hwf Hrun.
  destruct (handlers_cases strip_prefix_from_event event st)
    as [[_ Heq] | [(_ & _ & Heq) | (_ & _ & [Heq | Heq])]];
    rewrite Heq in Hrun.
  - rewrite get_sent_time_run in Hrun. injection Hrun as <-. cbn.
    now apply wf_setitem.
  - destruct (assoc (uuid event) (items (queued_tasks st))) as [info|] eqn:E.
    + rewrite (get_started_time_found _ _ _ E) in Hrun. injection Hrun as <-.
      unfold wf, restamp. cbn. now rewrite overwrite_keys.
    + rewrite (get_started_time_absent _ _ E) in Hrun. now injection Hrun as <-.
  - destruct (assoc (uuid event) (items (queued_tasks st))) as [info|] eqn:E.
    + rewrite (get_task_done_found _ _ _ _ E) in Hrun. injection Hrun as <-.
      cbn. now apply wf_remove.
    + rewrite (get_task_done_absent _ _ _ E) in Hrun. now injection Hrun as <-.
  - now injection Hrun as <-.
Qed.

(** From the start of the program, after any sequence of events, no task
    id is tracked twice: the keys of the cache are pairwise different. *)
Theorem tracked_ids_stay_unique (limit : Z) (events : list Event) :
  exists st,
    exec (deliver strip_prefix_from_event events) (initial limit) = Ok st /\
    wf (queued_tasks st).
Proof.
  assert (Hgen : forall st0, wf (queued_tasks st0) ->
            exists st, deliver strip_prefix_from_event events st0 = Ok (tt, st)
                       /\ wf (queued_tasks st)).
  { induction events as [|event events IH]; intros st0 Hwf.
    - now exists st0.
    - destruct (handlers_total strip_prefix_from_event event st0)
        as [st1 H1].
      rewrite (deliver_cons _ _ _ _ _ H1).
      apply IH. eapply handlers_wf; eauto. }
  destruct (Hgen (initial limit)) as (st & Hrun & Hwf).
  { apply NoDup_nil_2. }
  exists st. split; [apply (exec_run _ _ _ _ Hrun) | exact Hwf].
Qed.

(** How the tasksCaptured gauge moves, in a cache with unique keys that is
    within a capacity of at least one.  An enqueued event adds one when its
    task is new and the cache is below capacity, and nothing otherwise (an
    overwrite, or an eviction that makes room); a started event never moves
    it; a terminal event takes one off when its task is tracked and nothing
    otherwise. *)
Theorem tasks_captured_moves event st :
  wf (queued_tasks st) ->
  (1 <= size_limit (queued_tasks st))%Z ->
  (tasks_captured st <= size_limit (queued_tasks st))%Z ->
  (exists st',
     exec (get_sent_time event) st = Ok st' /\
     tasks_captured st'
     = if contains (uuid event) (queued_tasks st) then tasks_captured st
       else if (tasks_captured st <? size_limit (queued_tasks st))%Z
            then (tasks_captured st + 1)%Z
            else tasks_captured st) /\
  (exists st',
     exec (get_started_time event) st = Ok st' /\
     tasks_captured st' = tasks_captured st) /\
  (exists st',
     exec (get_task_done strip_prefix_from_event event) st = Ok st' /\
     tasks_captured st'
     = if contains (uuid event) (queued_tasks st)
       then (tasks_captured st - 1)%Z
       else tasks_captured st).
Proof.
  intros Hwf Hcap Hlen. unfold tasks_captured in *. split; [|split].
  - eexists. split; [apply (exec_run _ _ _ _ (get_sent_time_run event st))|].
    cbn. unfold setitem, at_capacity, len in *.
    destruct (contains (uuid event) (queued_tasks st)); cbn.
    + now rewrite overwrite_length.
    + destruct (Z.leb_spec (size_limit (queued_tasks st))
                           (Z.of_nat (length (items (queued_tasks st)))));
        destruct (Z.ltb_spec (Z.of_nat (length (items (queued_tasks st))))
                             (size_limit (queued_tasks st)));
        try lia; cbn; rewrite length_app; cbn.
      * destruct (items (queued_tasks st)); cbn in *; lia.
      * lia.
  - destruct (assoc (uuid event) (items (queued_tasks st))) as [info|] eqn:E.
    + eexists. split; [apply (exec_run _ _ _ _
                                (get_started_time_found _ _ _ E))|].
      unfold restamp, len. cbn. now rewrite overwrite_length.
    + exists st. split; [apply (exec_run _ _ _ _
                                  (get_started_time_absent _ _ E))|].
      reflexivity.
  - unfold contains.
    destruct (assoc (uuid event) (items (queued_tasks st))) as [info|] eqn:E.
    + eexists. split; [apply (exec_run _ _ _ _
                                (get_task_done_found _ _ _ _ E))|].
      unfold len. cbn.
      pose proof (remove_length_found _ _ _ Hwf E). lia.
    + exists st. split; [apply (exec_run _ _ _ _
                                  (get_task_done_absent _ _ _ E))|].
      reflexivity.
Qed.

(** Once a task has been evicted to make room, its later events are lost
    on the exporter: in a full cache (capacity at least one, unique keys),
    after an enqueued event for a new task id, a started or a terminal
    event for the task that was the oldest leaves the state as it is; in
    particular the backlog gauge keeps the evicted task's increment. *)
Theorem evicted_task_is_forgotten event later st
    (oldest : string * task_info) :
  (1 <= size_limit (queued_tasks st))%Z ->
  Z.of_nat (len (queued_tasks st)) = size_limit (queued_tasks st) ->
  wf (queued_tasks st) ->
  contains (uuid event) (queued_tasks st) = false ->
  head (items (queued_tasks st)) = Some oldest ->
  uuid later = fst oldest ->
  exists st',
    exec (get_sent_time event) st = Ok st' /\
    exec (get_started_time later) st' = Ok st' /\
    exec (get_task_done strip_prefix_from_event later) st' = Ok st' /\
    queue_length st'
    = inc (routing_key event, name event) (queue_length st).
Proof.
  intros Hcap Hfull Hwf Hnew Hhead Hid.
  pose proof (get_sent_time_run event st) as Hrun.
  set (st' := mkState _ _ _ _ _) in Hrun.
  assert (Habs : assoc (uuid later) (items (queued_tasks st')) = None).
  { subst st'. cbn. unfold setitem, at_capacity. rewrite Hnew.
    destruct (Z.leb_spec (size_limit (queued_tasks st))
                         (Z.of_nat (len (queued_tasks st)))); [|lia].
    unfold wf in Hwf. apply contains_false in Hnew.
    destruct (items (queued_tasks st)) as [|[k0 v0] rest]; [discriminate|].
    injection Hhead as <-. cbn in *.
    apply NoDup_cons in Hwf as [Hnotin _].
    destruct (String.eqb_spec (uuid event) k0) as [Heq|Hne]; [discriminate|].
    rewrite Hid, assoc_app.
    apply assoc_None_keys in Hnotin. rewrite Hnotin. cbn.
    now rewrite eqb_diff by congruence. }
  exists st'. split; [apply (exec_run _ _ _ _ Hrun)|].
  split; [apply (exec_run _ _ _ _ (get_started_time_absent _ _ Habs))|].
  split; [apply (exec_run _ _ _ _ (get_task_done_absent _ _ _ Habs))|].
  reflexivity.
Qed.

End Tracking.

Section Dispatch.

Variable strip_prefix_from_event : string -> string.

Lemma handlers_without_handler (event : Event) (st : state) :
  has_handler event = false ->
  handlers strip_prefix_from_event event st = Ok (tt, st).
Proof.
  unfold has_handler, handlers. intros Hno.
  repeat (apply orb_false_elim in Hno as [Hno ?]).
  repeat match goal with
         | H : String.eqb _ _ = false |- _ => rewrite H; clear H
         end.
  reflexivity.
Qed.

(** Events of a type that has no handler (worker heartbeats, task-received
    and the like) are invisible: a stream of events leaves the same state,
    or raises the same exception, as the stream with those events taken
    out. *)
Theorem unhandled_events_are_invisible (events : list Event) (st : state) :
  deliver strip_prefix_from_event events st
  = deliver strip_prefix_from_event (List.filter has_handler events) st.
Proof.
  revert st. induction events as [|event events IH]; intros st;
    [reflexivity|].
  cbn [List.filter]. destruct (has_handler event) eqn:Hh.
  - cbn [deliver]. unfold mbind, M_bind.
    destruct (handlers strip_prefix_from_event event st) as [[[] st1]|e];
      [apply IH | reflexivity].
  - rewrite (deliver_cons _ _ _ _ _ (handlers_without_handler _ _ Hh)).
    apply IH.
Qed.

End Dispatch.

(* ================================================================== *)
(** ** Examples of the properties above *)

Module Examples.
Import LimitedSizeDict Metrics Scenario.

(** A started on w1 at 105 and finished on w1 at 130. *)
Lemma started_then_done_balances_running_example :
  exists st2,
    exec (get_started_time startedA ;;
          get_task_done strip_prefix_from_event succeededA)
         (after [sentA]) = Ok st2 /\
    value (tasks_running st2) ("q1", "foo", "w1") = 0%Z /\
    value (queue_length st2) ("q1", "foo") = 0%Z /\
    contains "A" (queued_tasks st2) = false.
Proof.
  destruct (started_then_done_balances_running strip_prefix_from_event
              startedA succeededA (after [sentA]) (mkInfo 100 "q1" "foo"))
    as (st2 & Hrun & Hrunning & Hbacklog & Hgone).
  - vm_compute. reflexivity.
  - reflexivity.
  - reflexivity.
  - exists st2. split; [exact Hrun|].
    split; [exact Hrunning|]. split; [exact Hbacklog | exact Hgone].
Defined.

(** A started on w1, reported finished by w2. *)
Lemma worker_mismatch_unbalances_running_example :
  exists st2,
    exec (get_started_time startedA ;;
          get_task_done strip_prefix_from_event succeededA_on_w2)
         (after [sentA]) = Ok st2 /\
    value (tasks_running st2) ("q1", "foo", "w1") = 1%Z /\
    value (tasks_running st2) ("q1", "foo", "w2") = (-1)%Z.
Proof.
  destruct (worker_mismatch_unbalances_running strip_prefix_from_event
              startedA succeededA_on_w2 (after [sentA])
              (mkInfo 100 "q1" "foo"))
    as (st2 & Hrun & Hw1 & Hw2).
  - vm_compute. reflexivity.
  - reflexivity.
  - vm_compute. discriminate.
  - exists st2. split; [exact Hrun|]. split; [exact Hw1 | exact Hw2].
Defined.

(** A is enqueued at 100 and revoked at 104 without having started. *)
Lemma terminal_without_started_example :
  exists st2,
    exec (get_sent_time sentA ;;
          get_task_done strip_prefix_from_event revokedA)
         (initial MAX_TASKS_CAPTURED_default) = Ok st2 /\
    samples (execution_stats st2) ("q1", "foo", "w1", "revoked")
    = [4%float] /\
    value (tasks_running st2) ("q1", "foo", "w1") = (-1)%Z /\
    value (queue_length st2) ("q1", "foo") = 1%Z.
Proof.
  destruct (terminal_without_started strip_prefix_from_event
              sentA revokedA (initial MAX_TASKS_CAPTURED_default))
    as (st2 & Hrun & Hobs & Hrunning & Hbacklog & _).
  - vm_compute. discriminate.
  - reflexivity.
  - exists st2. split; [exact Hrun|].
    split; [exact Hobs|]. split; [exact Hrunning | exact Hbacklog].
Defined.


Lemma duplicate_terminal_is_ignored_example :
  exists st1,
    exec (get_task_done strip_prefix_from_event succeededA)
         (after [sentA; startedA]) = Ok st1 /\
    exec (get_task_done strip_prefix_from_event succeededA) st1 = Ok st1 /\
    exec (get_started_time succeededA) st1 = Ok st1.
Proof.
  apply (duplicate_terminal_is_ignored strip_prefix_from_event
           succeededA succeededA (after [sentA; startedA])
           (mkInfo 105 "q1" "foo")).
  - vm_compute. reflexivity.
  - reflexivity.
Defined.

(** B's record while A is started. *)
Lemma other_tasks_are_untouched_example :
  exists st',
    exec (get_started_time startedA) (after [sentA; sentB]) = Ok st' /\
    getitem "B" (queued_tasks st')
    = getitem "B" (queued_tasks (after [sentA; sentB])).
Proof.
  destruct (other_tasks_are_untouched strip_prefix_from_event
              startedA (after [sentA; sentB]) "B") as [Hstarted _].
  - vm_compute. discriminate.
  - exact Hstarted.
Defined.

(** Two tasks tracked, A finishes. *)
Lemma tasks_captured_moves_example :
  exists st',
    exec (get_task_done strip_prefix_from_event succeededA)
         (after [sentA; sentB]) = Ok st' /\
    tasks_captured st' = 1%Z.
Proof.
  destruct (tasks_captured_moves strip_prefix_from_event
              succeededA (after [sentA; sentB]))
    as (_ & _ & st' & Hrun & Hcount).
  - apply (bool_decide_unpack _). vm_compute. exact I.
  - vm_compute. discriminate.
  - vm_compute. discriminate.
  - exists st'. split; [exact Hrun | exact Hcount].
Defined.

(** Scenario C, continued: capacity 1, A tracked, B enqueued, then A's
    started event arrives. *)
Lemma evicted_task_is_forgotten_example :
  exists st',
    exec (get_sent_time sentB) (after_with 1 [sentA]) = Ok st' /\
    exec (get_started_time startedA) st' = Ok st' /\
    exec (get_task_done strip_prefix_from_event startedA) st' = Ok st' /\
    queue_length st'
    = inc ("q1", "foo") (queue_length (after_with 1 [sentA])).
Proof.
  apply (evicted_task_is_forgotten strip_prefix_from_event sentB startedA
           (after_with 1 [sentA]) ("A", mkInfo 100 "q1" "foo")).
  - vm_compute. discriminate.
  - vm_compute. reflexivity.
  - apply (bool_decide_unpack _). vm_compute. exact I.
  - vm_compute. reflexivity.
  - vm_compute. reflexivity.
  - reflexivity.
Defined.

End Examples.
